(** * LUT-memory fuzzers: cell-mask and rand-all

    A shallow embedding of the two fuzzer scripts
    [generic-lc-lut-1-cell_mask.py] and [generic-lc-lut-4-rand_all.py],
    with the properties their specification states about them.

    Python values are modelled as follows: [int] is [Z], [str] is
    [string], a [float] is a binary64 value of the IEEE 754 model
    [spec_float], a list is a [list], a [set] of integers is a [gset Z],
    a dictionary with a fixed set of keys is a record and the dictionary
    of extra columns is a [gmap string string]. An exception is a value
    of [exn]; logging, printing, file output, the results store, the
    clock and the random source live in an explicit [world]. *)

From Stdlib Require Import ZArith Lia Ascii String.
From Stdlib Require Import Floats.SpecFloat.
From stdpp Require Import base option list gmap sets strings sorting pretty.

Open Scope string_scope.
Open Scope Z_scope.

(** ** Python primitives *)

Module Py.

Inductive exn :=
| ValueError (msg : string)
| KeyError (key : string)
| IndexError (msg : string)
| ZeroDivisionError (msg : string)
| OverflowError (msg : string).

(** The outcome of a pure computation: a value or a raised exception. *)
Inductive result (A : Type) :=
| Ok (a : A)
| Raise (e : exn).
Arguments Ok {A} a.
Arguments Raise {A} e.

#[global] Instance result_ret : MRet result := fun _ a => Ok a.

#[global] Instance result_bind : MBind result := fun _ _ k m =>
  match m with
  | Ok a => k a
  | Raise e => Raise e
  end.

(** [[f(x) for x in l]]: the elements are evaluated from left to right
    and the first exception leaves the comprehension. *)
Fixpoint comprehension {A B} (f : A -> result B) (l : list A) : result (list B) :=
  match l with
  | [] => Ok []
  | x :: l' => y ← f x; ys ← comprehension f l'; Ok (y :: ys)
  end.

(** [len(...)] of a string and of a list. *)
Definition len_str (s : string) : Z := Z.of_nat (String.length s).
Definition len {A} (l : list A) : Z := Z.of_nat (length l).

(** [str(i)] for an integer, which is also what [%d] and [{i}] print. *)
Definition str_of_int (i : Z) : string := pretty i.

(** [a << k]: a negative shift count raises. *)
Definition lshift (a k : Z) : result Z :=
  if k <? 0 then Raise (ValueError "negative shift count")
  else Ok (Z.shiftl a k).

(** *** Strings *)

(** The text before and after the first occurrence of [sep]. *)
Fixpoint split_first (sep : ascii) (s : string) : option (string * string) :=
  match s with
  | EmptyString => None
  | String c s' =>
      if Ascii.eqb c sep then Some (EmptyString, s')
      else match split_first sep s' with
           | Some (before, after) => Some (String c before, after)
           | None => None
           end
  end.

(** [s.partition(sep)] for a one-character separator. *)
Definition partition (sep : ascii) (s : string) : string * string * string :=
  match split_first sep s with
  | Some (before, after) => (before, String sep EmptyString, after)
  | None => (s, EmptyString, EmptyString)
  end.

(** [s.split(sep)] for a one-character separator: never empty. *)
Fixpoint split (sep : ascii) (s : string) : list string :=
  match s with
  | EmptyString => [EmptyString]
  | String c s' =>
      if Ascii.eqb c sep then EmptyString :: split sep s'
      else match split sep s' with
           | piece :: pieces => String c piece :: pieces
           | [] => [String c EmptyString]
           end
  end.

(** [l[-1]]. *)
Definition index_last {A} (l : list A) : result A :=
  match last l with
  | Some a => Ok a
  | None => Raise (IndexError "list index out of range")
  end.

(** [s.replace(old, new)] for a one-character [old]. *)
Fixpoint replace (old : ascii) (new : string) (s : string) : string :=
  match s with
  | EmptyString => EmptyString
  | String c s' =>
      if Ascii.eqb c old then new +:+ replace old new s'
      else String c (replace old new s')
  end.

(** [s * n]: no copy at all when [n <= 0]. *)
Fixpoint repeat_str (s : string) (n : nat) : string :=
  match n with
  | O => EmptyString
  | S n' => s +:+ repeat_str s n'
  end.

Definition str_mul (s : string) (n : Z) : string := repeat_str s (Z.to_nat n).

(** [sep.join(l)] and [''.join(l)]. *)
Definition join (sep : string) (l : list string) : string := String.concat sep l.

(** The line feed of ["\n"]. *)
Definition nl : string := String (ascii_of_nat 10) EmptyString.

(** *** Sets of integers *)

(** [set(a).symmetric_difference(b)], for [b] any iterable. *)
Definition symmetric_difference (s : gset Z) (b : list Z) : gset Z :=
  let t : gset Z := list_to_set b in (s ∖ t) ∪ (t ∖ s).

(** [sorted(s)] of a set of integers. *)
Definition sorted (s : gset Z) : list Z := merge_sort Z.le (elements s).

(** *** Floats *)

Definition prec : Z := 53.
Definition emax : Z := 1024.

Definition float_of_int (i : Z) : spec_float :=
  match i with
  | Z0 => S754_zero false
  | Zpos p => S754_finite false p 0
  | Zneg p => S754_finite true p 0
  end.

(** [a / b] on integers: the quotient rounded once, to the nearest
    binary64 value, ties to even. *)
Definition truediv (a b : Z) : result spec_float :=
  if b =? 0 then Raise (ZeroDivisionError "division by zero")
  else match SFdiv prec emax (float_of_int a) (float_of_int b) with
       | S754_infinity _ =>
           Raise (OverflowError "integer division result too large for a float")
       | q => Ok q
       end.

(** [math.ceil(x)]. *)
Definition ceil (x : spec_float) : result Z :=
  match x with
  | S754_zero _ => Ok 0
  | S754_finite s m e =>
      let v := if s then Zneg m else Zpos m in
      if 0 <=? e then Ok (v * 2 ^ e)
      else Ok (- ((- v) / 2 ^ (- e)))
  | S754_infinity _ => Raise (OverflowError "cannot convert float infinity to integer")
  | S754_nan => Raise (ValueError "cannot convert float NaN to integer")
  end.

(** [num / den] rounded to the nearest integer, ties to even,
    for [den > 0]. *)
Definition div_half_even (num den : Z) : Z :=
  let q := num / den in
  let r := num mod den in
  match 2 * r ?= den with
  | Lt => q
  | Gt => q + 1
  | Eq => if Z.even q then q else q + 1
  end.

(** Two decimal digits, zero padded. *)
Definition two_digits (i : Z) : string :=
  if i <? 10 then "0" +:+ str_of_int i else str_of_int i.

(** [f"{x:.2f}"]: the exact value of [x] in hundredths, rounded to the
    nearest integer, ties to even; the sign of [x] is kept. *)
Definition format_2f (x : spec_float) : string :=
  match x with
  | S754_zero s => (if s then "-" else "") +:+ "0.00"
  | S754_finite s m e =>
      let h := if 0 <=? e then Zpos m * 2 ^ e * 100
               else div_half_even (Zpos m * 100) (2 ^ (- e)) in
      (if s then "-" else "") +:+ str_of_int (h / 100) +:+ "." +:+ two_digits (h mod 100)
  | S754_infinity s => (if s then "-" else "") +:+ "inf"
  | S754_nan => "nan"
  end.

End Py.

Import Py.

(** ** The framework the scripts run in

    [foxtrot_core] is outside the two scripts: what follows is the part
    of its interface that they consume. *)

Module Foxtrot.

(** The template parameters of one build, [verilog_parameters]. *)
Record verilog_parameters := {
  vp_N : Z;
  vp_K : Z;
  vp_CHUNK_LUTS : Z;
  vp_INIT : string
}.

#[global] Instance verilog_parameters_eq_dec : EqDecision verilog_parameters.
Proof. solve_decision. Defined.

(** What [build_param_set] returns. *)
Record param_set := {
  ps_index : Z;
  ps_chunk_bits : Z;
  ps_chunk_keys : list string;
  ps_verilog_parameters : verilog_parameters
}.

(** One entry of [fuzzer.results], which is also the context a persisted
    row hands to [extra_cols]. The key [param_index] may be missing;
    [success] is what [r.get("success")] tests, false when the key is
    missing; [params] is [r["params"]["verilog_parameters"]] and
    [offsets] is [r["data"]["offsets"]]. *)
Record row := {
  param_index : option Z;
  success : bool;
  params : verilog_parameters;
  offsets : list Z
}.

(** The extra columns of a persisted row. *)
Abbreviation cols := (gmap string string).

Inductive event :=
| LogWarning (msg : string)
| LogInfo (msg : string)
| Print (msg : string)
| WriteText (path content : string)
| SaveResultsToDb (extra_cols : option row -> result cols)
    (dynamic_params : list param_set).

(** The [Fuzzer] object, as far as the analysis callbacks read it. *)
Record fuzzer := {
  results : list row;
  fuzzer_dir : string;
  static_init_values : list string
}.

(** Everything outside the scripts that they read or change: the
    outcomes of the successive calls of [random.choice("01")] and how
    many were consumed, the formatted reading of the clock, and what was
    logged, printed, written and handed to the results store, oldest
    first. *)
Record world := {
  coin : nat -> bool;
  draws : nat;
  now : string;
  trace : list event
}.

(** An effectful computation. An exception keeps the effects that
    came before it. *)
Definition action (A : Type) : Type := world -> result A * world.

#[global] Instance action_ret : MRet action := fun _ a w => (Ok a, w).

#[global] Instance action_bind : MBind action := fun _ _ k m w =>
  match m w with
  | (Ok a, w') => k a w'
  | (Raise e, w') => (Raise e, w')
  end.

Definition lift {A} (r : result A) : action A := fun w => (r, w).

Definition emit (ev : event) : action unit := fun w =>
  (Ok tt, {| coin := coin w; draws := draws w; now := now w;
             trace := trace w ++ [ev] |}).

Definition log_warning (msg : string) : action unit := emit (LogWarning msg).
Definition log_info (msg : string) : action unit := emit (LogInfo msg).
Definition print (msg : string) : action unit := emit (Print msg).
Definition write_text (path content : string) : action unit :=
  emit (WriteText path content).
Definition save_results_to_db (extra_cols : option row -> result cols)
    (dynamic_params : list param_set) : action unit :=
  emit (SaveResultsToDb extra_cols dynamic_params).

(** [datetime.now().strftime("%Y%m%d_%H%M%S")]. *)
Definition strftime_now : action string := fun w => (Ok (now w), w).

(** [random.choice("01")]. *)
Definition random_choice_01 : action ascii := fun w =>
  (Ok (if coin w (draws w) then "1"%char else "0"%char),
   {| coin := coin w; draws := S (draws w); now := now w; trace := trace w |}).

(** The configuration the drivers read, [fuzzer.config]. A key that the
    configuration does not hold is [None]; the numbers are what [int]
    makes of the entries of [verilog_parameters]. [cfg_base_value] and
    [cfg_inverted_value] are the entries
    [active_params["init_patterns"][...]["value"]], [cfg_num_values]
    is [active["num_values"]] and [cfg_static_init_values] is
    [active["design_parameters"]["static_init_values"]], empty when
    missing. *)
Record config := {
  cfg_N : option Z;
  cfg_K : option Z;
  cfg_CHUNK_LUTS : option Z;
  cfg_base_value : option string;
  cfg_inverted_value : option string;
  cfg_num_values : option Z;
  cfg_static_init_values : list string
}.

(** Modelled from the spec: [build_param_set] of [foxtrot_core], which
    is not among the sources. It wraps the index, the chunking
    directive and the template fields [N], [K], [CHUNK_LUTS] and
    [INIT] into one parameter set; the chunking itself is left to the
    template engine. *)
Definition build_param_set (index chunk_bits : Z) (chunk_keys : list string)
    (n k chunk_luts : Z) (init : string) : param_set :=
  {| ps_index := index; ps_chunk_bits := chunk_bits; ps_chunk_keys := chunk_keys;
     ps_verilog_parameters :=
       {| vp_N := n; vp_K := k; vp_CHUNK_LUTS := chunk_luts; vp_INIT := init |} |}.

(** The call of [fuzzer.run_experiment] a driver ends with: the groups
    of parameter sets, the cleanup flag and the number of worker
    processes; [design_name] is the design name the driver has set in
    the configuration by then, if it has set one. The analysis callback
    is the one of the script. *)
Record experiment := {
  dynamic_params_list : list (list param_set);
  cleanup : bool;
  num_processes : Z;
  design_name : option string
}.

End Foxtrot.

Import Foxtrot.

(** ** [generic-lc-lut-1-cell_mask.py] *)

Module CellMask.

(** A flat Verilog literal of [n * 2**k] bits: the pattern [n] times. *)
Definition _generate_init_values (n k : Z) (pattern : string) : result string :=
  let '(_, _, literal) := partition "b" pattern in
  let bits := replace "_" "" literal in
  lut_bits ← lshift 1 k;
  if bool_decide (len_str bits ≠ lut_bits) then
    Raise (ValueError ("INIT pattern has " +:+ str_of_int (len_str bits) +:+ " bits; "
                       +:+ str_of_int lut_bits +:+ " required for K=" +:+ str_of_int k))
  else
    let repeated := str_mul bits n in
    Ok (str_of_int (len_str repeated) +:+ "'b" +:+ repeated).

(** [next((r for r in results if r["param_index"] == i), None)]: the
    rows are read in order up to the first match, and a row read without
    the key raises. *)
Fixpoint find_param_index (i : Z) (rs : list row) : result (option row) :=
  match rs with
  | [] => Ok None
  | r :: rs' =>
      match param_index r with
      | None => Raise (KeyError "param_index")
      | Some j => if bool_decide (j = i) then Ok (Some r) else find_param_index i rs'
      end
  end.

(** The sorted symmetric difference of the two offset lists. *)
Definition xor_offsets (base inv : row) : list Z :=
  sorted (symmetric_difference (list_to_set (offsets base)) (offsets inv)).

(** [math.ceil(len(xor) / (1 << k))]. *)
Definition activated_luts (xor : list Z) (k : Z) : result Z :=
  lut_bits ← lshift 1 k;
  q ← truediv (len xor) lut_bits;
  ceil q.

(** The closure [_extra] of [_analyze_results]: [off_path], [xor] and
    [activated] are the variables it captures. *)
Definition _extra (off_path : string) (xor : list Z) (activated : Z)
    (res : option row) : cols :=
  let idx := match res with
             | Some r => default (-1) (param_index r)
             | None => -1
             end in
  {[ "pattern_type" := if bool_decide (idx = 0) then "base" else "inverted";
     "lut_config_bits_file" := off_path;
     "lut_config_bits" := join "," (map str_of_int xor);
     "activated_luts" := str_of_int activated ]}.

(** The analysis callback. *)
Definition _analyze_results (fz : fuzzer) (dyn_params : list param_set) : action unit :=
  if bool_decide (len dyn_params ≠ 2) then
    log_warning ("Aborted – expected two runs, got " +:+ str_of_int (len dyn_params))
  else
    base ← lift (find_param_index 0 (results fz));
    inv ← lift (find_param_index 1 (results fz));
    match base, inv with
    | Some base, Some inv =>
        let xor := xor_offsets base inv in
        log_info ("→ " +:+ str_of_int (len xor) +:+ " differing configuration bits found");;
        p0 ← lift (match dyn_params with
                   | p :: _ => Ok p
                   | [] => Raise (IndexError "list index out of range")
                   end);
        let k := vp_K (ps_verilog_parameters p0) in
        activated ← lift (activated_luts xor k);
        log_info ("→ affects " +:+ str_of_int activated +:+ " LUTs (K="
                  +:+ str_of_int k +:+ ")");;
        ts ← strftime_now;
        let off_path := fuzzer_dir fz +:+ "/output/lut_config_bits_" +:+ ts +:+ ".off" in
        write_text off_path (join nl (map str_of_int xor));;
        log_info ("Offset list written → " +:+ off_path);;
        save_results_to_db (fun res => Ok (_extra off_path xor activated res)) dyn_params
    | _, _ => log_warning "Aborted – missing result rows"
    end.

Definition _MAX_LUTS_PER_PARAMETER : Z := 256.

(** The driver: two complementary parameter sets in one group. *)
Definition main (cfg : config) : result experiment :=
  let n := default 64 (cfg_N cfg) in
  let k := default 4 (cfg_K cfg) in
  let chunk_luts := default _MAX_LUTS_PER_PARAMETER (cfg_CHUNK_LUTS cfg) in
  let base_pat := default "16'b0001_0110_0110_1000" (cfg_base_value cfg) in
  let inv_pat := default "16'b1110_1001_1001_0111" (cfg_inverted_value cfg) in
  lut_bits ← lshift 1 k;
  let chunk_bits := lut_bits * chunk_luts in
  base_init ← _generate_init_values n k base_pat;
  let base_set := build_param_set 0 chunk_bits ["INIT"] n k chunk_luts base_init in
  inv_init ← _generate_init_values n k inv_pat;
  let inv_set := build_param_set 1 chunk_bits ["INIT"] n k chunk_luts inv_init in
  Ok {| dynamic_params_list := [[base_set; inv_set]];
        cleanup := false;
        num_processes := 2;
        design_name := None |}.

End CellMask.

(** ** [generic-lc-lut-4-rand_all.py] *)

Module RandAll.

(** The pattern without what comes before its last ["b"] and without
    underscores. *)
Definition _plain_bits (pattern : string) (k : Z) : result string :=
  last_piece ← index_last (split "b" pattern);
  let bits := replace "_" "" last_piece in
  lut_bits ← lshift 1 k;
  if bool_decide (len_str bits ≠ lut_bits) then
    Raise (ValueError ("Pattern '" +:+ pattern +:+ "' has " +:+ str_of_int (len_str bits)
                       +:+ " bits; expected " +:+ str_of_int lut_bits
                       +:+ " for K=" +:+ str_of_int k))
  else Ok bits.

(** ["".join(random.choice("01") for _ in range(lut_bits))]. *)
Fixpoint random_bits (lut_bits : nat) : action string :=
  match lut_bits with
  | O => mret EmptyString
  | S m => c ← random_choice_01; rest ← random_bits m; mret (String c rest)
  end.

(** The loop [while len(static_bits) < n], which appends one random
    pattern per turn: [slots] is the number of turns left,
    [n - len(static_bits)]. *)
Fixpoint fill (lut_bits : Z) (slots : nat) (static_bits : list string)
    : action (list string) :=
  match slots with
  | O => mret static_bits
  | S slots' =>
      rnd ← random_bits (Z.to_nat lut_bits);
      fill lut_bits slots' (static_bits ++ [rnd])
  end.

(** The per-LUT bit strings of the chain, LUT 0 first: the value of
    [static_bits] once the loop is over. *)
Definition chain_bits (n k : Z) (static_patterns : list string) : action (list string) :=
  lut_bits ← lift (lshift 1 k);
  static_bits ← lift (comprehension (fun pat => _plain_bits pat k) static_patterns);
  if bool_decide (len static_bits > n) then
    lift (Raise (ValueError "More static patterns than LUTs in the chain"))
  else
    fill lut_bits (Z.to_nat (n - len static_bits)) static_bits.

(** A single Verilog literal that initialises an [n]-deep LUT chain. *)
Definition _build_flat_init_literal (n k : Z) (static_patterns : list string)
    : action string :=
  static_bits ← chain_bits n k static_patterns;
  let flat_bits := join "" (reverse static_bits) in
  mret (str_of_int (len_str flat_bits) +:+ "'b" +:+ flat_bits).

(** The closure [extra_cols] of [analyze_results]. *)
Definition extra_cols (total_luts total_bits static_cnt : Z) (_ : option row)
    : result cols :=
  q ← truediv total_bits total_luts;
  Ok ({[ "total_luts" := str_of_int total_luts;
         "total_bits" := str_of_int total_bits;
         "bits_per_lut" := format_2f q;
         "static_luts" := str_of_int static_cnt ]} : cols).

(** The analysis callback. *)
Definition analyze_results (fz : fuzzer) (dynamic_params : list param_set) : action unit :=
  param_set ← lift (match dynamic_params with
                    | p :: _ => Ok p
                    | [] => Raise (IndexError "list index out of range")
                    end);
  let result := List.find (fun r => success r &&
                    bool_decide (params r = ps_verilog_parameters param_set))
                  (results fz) in
  match result with
  | None => print "[ANALYSIS] Skipped – no successful result for this group."
  | Some result =>
      let total_bits := len (offsets result) in
      let total_luts := vp_N (ps_verilog_parameters param_set) in
      print (nl +:+ "Random‑All LUT‑Chain analysis");;
      print ("  Chain length      : " +:+ str_of_int total_luts +:+ " LUTs");;
      print ("  Config bits found : " +:+ str_of_int total_bits);;
      q ← lift (truediv total_bits total_luts);
      print ("  Avg. bits per LUT : " +:+ format_2f q);;
      let static_cnt := len (static_init_values fz) in
      save_results_to_db (extra_cols total_luts total_bits static_cnt) dynamic_params
  end.

(** The loop [for idx in range(iterations)] of the driver: [idxs] are
    the iterations still to run and [groups] the groups built so
    far. *)
Fixpoint build_groups (n k chunk_luts chunk_bits : Z) (static_init : list string)
    (idxs : list Z) (groups : list (list param_set)) : action (list (list param_set)) :=
  match idxs with
  | [] => mret groups
  | idx :: idxs' =>
      flat_init ← _build_flat_init_literal n k static_init;
      let param_set := build_param_set idx chunk_bits ["INIT"] n k chunk_luts flat_init in
      build_groups n k chunk_luts chunk_bits static_init idxs' (groups ++ [[param_set]])
  end.

(** The driver: one group of one parameter set per iteration. *)
Definition main (cfg : config) : action experiment :=
  let n := default 1152 (cfg_N cfg) in
  let k := default 4 (cfg_K cfg) in
  let chunk_luts := default 256 (cfg_CHUNK_LUTS cfg) in
  let iterations := default 1 (cfg_num_values cfg) in
  let static_init := cfg_static_init_values cfg in
  lut_bits ← lift (lshift 1 k);
  let chunk_bits := lut_bits * chunk_luts in
  groups ← build_groups n k chunk_luts chunk_bits static_init (seqZ 0 iterations) [];
  mret {| dynamic_params_list := groups;
          cleanup := false;
          num_processes := Z.max 1 iterations;
          design_name := Some "base" |}.

End RandAll.

(** ** Vocabulary of the specification *)

Module Spec.

(** Does the character occur in the string? *)
Fixpoint occurs (c : ascii) (s : string) : bool :=
  match s with
  | EmptyString => false
  | String c' s' => Ascii.eqb c' c || occurs c s'
  end.

Definition digit_value (c : ascii) : option Z :=
  let n := Z.of_nat (nat_of_ascii c) in
  if bool_decide (48 <= n <= 57) then Some (n - 48) else None.

Fixpoint decimal_from (acc : Z) (s : string) : option Z :=
  match s with
  | EmptyString => Some acc
  | String c s' => d ← digit_value c; decimal_from (10 * acc + d) s'
  end.

(** The declared width of a content literal: the decimal number in
    front of its ['b] separator. *)
Definition declared_width (pattern : string) : option Z :=
  match partition "'" pattern with
  | (EmptyString, _, _) => None
  | (number, _, _) => decimal_from 0 number
  end.

(** The string without the occurrences of the character. *)
Fixpoint without (c : ascii) (s : string) : string :=
  match s with
  | EmptyString => EmptyString
  | String c' s' => if Ascii.eqb c' c then without c s' else String c' (without c s')
  end.

(** A computation raises. *)
Definition raises {A} (r : result A) : Prop := exists e, r = Raise e.

(** A computation raises a [ValueError]. *)
Definition raises_ValueError {A} (r : result A) : Prop :=
  exists msg, r = Raise (ValueError msg).

(** The index a row context stands for in the row-extension record:
    -1 when there is no context or no [param_index] in it. *)
Definition row_index (res : option row) : Z :=
  match res with
  | Some r => default (-1) (param_index r)
  | None => -1
  end.

(** The character a draw of the random source stands for. *)
Definition bit_char (b : bool) : ascii := if b then "1"%char else "0"%char.

(** The bits of the draws number [start], [start + 1], ... up to
    [count] of them. *)
Fixpoint coin_bits (source : nat -> bool) (start count : nat) : string :=
  match count with
  | O => EmptyString
  | S count' => String (bit_char (source start)) (coin_bits source (S start) count')
  end.

(** [slots] random patterns of [width] bits each, cut one after the
    other from the draws that start at [start]. *)
Fixpoint random_chain (source : nat -> bool) (start width slots : nat) : list string :=
  match slots with
  | O => []
  | S slots' => coin_bits source start width
                :: random_chain source (start + width) width slots'
  end.

(** The world after [count] more draws. *)
Definition advance (count : nat) (w : world) : world :=
  {| coin := coin w; draws := (draws w + count)%nat; now := now w; trace := trace w |}.

(** The world after some more events. *)
Definition after (evs : list event) (w : world) : world :=
  {| coin := coin w; draws := draws w; now := now w; trace := trace w ++ evs |}.

(** The flat literal of a chain of per-LUT bit strings, LUT 0 first:
    the bits of the last LUT lead. *)
Definition flat_literal (chain : list string) : string :=
  str_of_int (len_str (join "" (reverse chain))) +:+ "'b" +:+ join "" (reverse chain).

(** A world to run examples in: nothing has happened yet, and the
    random source alternates, starting with a one. *)
Definition world0 : world :=
  {| coin := Nat.even; draws := 0; now := "20240101_120000"; trace := [] |}.

(** Example data: a group of two parameter sets with [K = 4], two
    successful results, a failed result of index 1, and the fuzzers that
    hold them. *)
Definition vp_example : verilog_parameters :=
  {| vp_N := 64; vp_K := 4; vp_CHUNK_LUTS := 256; vp_INIT := "" |}.

Definition ps_example (i : Z) : param_set :=
  {| ps_index := i; ps_chunk_bits := 4096; ps_chunk_keys := ["INIT"];
     ps_verilog_parameters := vp_example |}.

Definition base_example : row :=
  {| param_index := Some 0; success := true; params := vp_example; offsets := [1; 2; 5] |}.

Definition inv_example : row :=
  {| param_index := Some 1; success := true; params := vp_example; offsets := [2; 5; 9] |}.

Definition inv_failed : row :=
  {| param_index := Some 1; success := false; params := vp_example; offsets := [] |}.

Definition fuzzer_example : fuzzer :=
  {| results := [base_example; inv_example]; fuzzer_dir := "fz"; static_init_values := [] |}.

Definition fuzzer_failed : fuzzer :=
  {| results := [base_example; inv_failed]; fuzzer_dir := "fz"; static_init_values := [] |}.

(** Example data for the chain statistics: a chain of 1152 LUTs and a
    successful result with 4600 offsets. *)
Definition chain_vp_example : verilog_parameters :=
  {| vp_N := 1152; vp_K := 4; vp_CHUNK_LUTS := 256; vp_INIT := "" |}.

Definition chain_ps_example : param_set :=
  {| ps_index := 0; ps_chunk_bits := 4096; ps_chunk_keys := ["INIT"];
     ps_verilog_parameters := chain_vp_example |}.

Definition chain_row_example : row :=
  {| param_index := Some 0; success := true; params := chain_vp_example;
     offsets := map Z.of_nat (seq 0 4600) |}.

Definition chain_row_failed : row :=
  {| param_index := Some 0; success := false; params := chain_vp_example; offsets := [] |}.

Definition chain_fuzzer_example : fuzzer :=
  {| results := [chain_row_failed; chain_row_example]; fuzzer_dir := "fz";
     static_init_values := [] |}.

Definition chain_fuzzer_failed : fuzzer :=
  {| results := [chain_row_failed]; fuzzer_dir := "fz"; static_init_values := [] |}.

(** The row the Chain Statistics Analyzer looks for: the first
    successful result built from the parameters of the group. *)
Definition group_result (fz : fuzzer) (p : param_set) : option row :=
  List.find (fun r => success r && bool_decide (params r = ps_verilog_parameters p))
    (results fz).


(** What follows the first [b] of a pattern, nothing when there is
    none. *)
Definition after_first_b (pattern : string) : string :=
  match split_first "b" pattern with
  | Some (_, after) => after
  | None => EmptyString
  end.

(** A pattern that the rand-all encoder accepts for [k]. *)
Definition encodes (k : Z) (pattern : string) : Prop :=
  exists bits, RandAll._plain_bits pattern k = Ok bits.

(** Example configurations: one that sets everything, for two LUTs of
    two inputs and three iterations, and the empty one, which leaves
    every default in place. *)
Definition cfg_example : config :=
  {| cfg_N := Some 2; cfg_K := Some 2; cfg_CHUNK_LUTS := None;
     cfg_base_value := Some "4'b0001"; cfg_inverted_value := Some "4'b1110";
     cfg_num_values := Some 3; cfg_static_init_values := ["4'b0001"] |}.

Definition cfg_default : config :=
  {| cfg_N := None; cfg_K := None; cfg_CHUNK_LUTS := None;
     cfg_base_value := None; cfg_inverted_value := None;
     cfg_num_values := None; cfg_static_init_values := [] |}.

End Spec.

Import Spec.

(** ** Strings *)

Section Strings.

Lemma append_cons (c : ascii) (s t : string) : String c s +:+ t = String c (s +:+ t).
Proof. reflexivity. Qed.

Lemma append_nil (t : string) : EmptyString +:+ t = t.
Proof. reflexivity. Qed.

Lemma length_append (s t : string) :
  String.length (s +:+ t) = (String.length s + String.length t)%nat.
Proof.
  induction s as [|c s IH]; [reflexivity |].
  rewrite append_cons. simpl. now rewrite IH.
Qed.

Lemma append_empty_r (s : string) : s +:+ EmptyString = s.
Proof.
  induction s as [|c s IH]; [reflexivity |].
  now rewrite append_cons, IH.
Qed.

Lemma append_assoc (s t u : string) : (s +:+ t) +:+ u = s +:+ (t +:+ u).
Proof.
  induction s as [|c s IH]; [reflexivity |].
  now rewrite !append_cons, IH.
Qed.

Lemma len_str_append (s t : string) : len_str (s +:+ t) = len_str s + len_str t.
Proof. unfold len_str. rewrite length_append. lia. Qed.

Lemma len_str_nonneg (s : string) : 0 <= len_str s.
Proof. unfold len_str. lia. Qed.

Lemma split_first_app (c : ascii) (pre rest : string) :
  occurs c pre = false ->
  split_first c (pre +:+ String c rest) = Some (pre, rest).
Proof.
  induction pre as [|a pre IH]; intros Hocc.
  - rewrite append_nil. simpl. now rewrite Ascii.eqb_refl.
  - rewrite append_cons. simpl in *.
    apply orb_false_iff in Hocc as [Ha Hpre].
    rewrite Ha, (IH Hpre). reflexivity.
Qed.

Lemma partition_app (c : ascii) (pre rest : string) :
  occurs c pre = false ->
  partition c (pre +:+ String c rest) = (pre, String c EmptyString, rest).
Proof. intros H. unfold partition. now rewrite split_first_app. Qed.

Lemma split_nonempty (c : ascii) (s : string) : split c s <> [].
Proof.
  induction s as [|a s IH]; simpl; [discriminate |].
  destruct (Ascii.eqb a c); [discriminate |].
  destruct (split c s); [contradiction | discriminate].
Qed.

Lemma split_absent (c : ascii) (s : string) :
  occurs c s = false -> split c s = [s].
Proof.
  induction s as [|a s IH]; simpl; intros Hocc; [reflexivity |].
  apply orb_false_iff in Hocc as [Ha Hs].
  now rewrite Ha, (IH Hs).
Qed.

Lemma last_cons_nonempty {A} (x : A) (l : list A) : l <> [] -> last (x :: l) = last l.
Proof. destruct l; [contradiction | reflexivity]. Qed.

(** A string in which the separator occurs splits into two pieces at least. *)
Lemma split_app_length (c : ascii) (pre body : string) :
  (1 < length (split c (pre +:+ String c body)))%nat.
Proof.
  induction pre as [|x pre IH].
  - rewrite append_nil. simpl. rewrite Ascii.eqb_refl. simpl.
    pose proof (split_nonempty c body). destruct (split c body); simpl; [contradiction | lia].
  - rewrite append_cons. simpl.
    destruct (Ascii.eqb x c); simpl; [lia |].
    destruct (split c (pre +:+ String c body)); simpl in *; lia.
Qed.

Lemma last_split_app (c : ascii) (pre body : string) :
  occurs c body = false ->
  last (split c (pre +:+ String c body)) = Some body.
Proof.
  intros Hb. induction pre as [|a pre IH].
  - rewrite append_nil. simpl. rewrite Ascii.eqb_refl, (split_absent _ _ Hb). reflexivity.
  - rewrite append_cons. simpl.
    pose proof (split_nonempty c (pre +:+ String c body)) as Hne.
    pose proof (split_app_length c pre body) as Hlen.
    destruct (Ascii.eqb a c).
    + rewrite last_cons_nonempty by assumption. exact IH.
    + destruct (split c (pre +:+ String c body)) as [|p [|p' ps]];
        [contradiction | simpl in Hlen; lia | exact IH].
Qed.

End Strings.

(** ** The pattern encoders *)

Section Encoders.

Lemma replace_empty (c : ascii) (s : string) : replace c EmptyString s = without c s.
Proof.
  induction s as [|a s IH]; simpl; [reflexivity |].
  destruct (Ascii.eqb a c); [rewrite append_nil | f_equal]; exact IH.
Qed.

Lemma lshift_nonneg (k : Z) : 0 <= k -> lshift 1 k = Ok (2 ^ k).
Proof.
  intros Hk. unfold lshift.
  destruct (Z.ltb_spec k 0); [lia |].
  now rewrite Z.shiftl_1_l.
Qed.

Lemma lshift_neg (a k : Z) :
  k < 0 -> lshift a k = Raise (ValueError "negative shift count").
Proof. intros Hk. unfold lshift. destruct (Z.ltb_spec k 0); [reflexivity | lia]. Qed.

Lemma lshift_cases (a k : Z) :
  (0 <= k /\ lshift a k = Ok (Z.shiftl a k)) \/
  (k < 0 /\ lshift a k = Raise (ValueError "negative shift count")).
Proof. unfold lshift. destruct (Z.ltb_spec k 0); [right | left]; split; trivial. Qed.

(** What the cell-mask encoder does with a literal [prefix b body]. *)
Lemma generate_init_values_app (prefix body : string) (n k : Z) :
  occurs "b" prefix = false ->
  CellMask._generate_init_values n k (prefix +:+ String "b" body) =
  (lut_bits ← lshift 1 k;
   if bool_decide (len_str (without "_" body) ≠ lut_bits) then
     Raise (ValueError ("INIT pattern has " +:+ str_of_int (len_str (without "_" body))
                        +:+ " bits; " +:+ str_of_int lut_bits
                        +:+ " required for K=" +:+ str_of_int k))
   else
     Ok (str_of_int (len_str (str_mul (without "_" body) n)) +:+ "'b"
         +:+ str_mul (without "_" body) n)).
Proof.
  intros Hp. unfold CellMask._generate_init_values.
  rewrite (partition_app _ _ _ Hp), replace_empty. reflexivity.
Qed.

(** What the rand-all encoder does with a literal [prefix b body]. *)
Lemma plain_bits_app (prefix body : string) (k : Z) :
  occurs "b" body = false ->
  RandAll._plain_bits (prefix +:+ String "b" body) k =
  (lut_bits ← lshift 1 k;
   if bool_decide (len_str (without "_" body) ≠ lut_bits) then
     Raise (ValueError ("Pattern '" +:+ (prefix +:+ String "b" body) +:+ "' has "
                        +:+ str_of_int (len_str (without "_" body))
                        +:+ " bits; expected " +:+ str_of_int lut_bits
                        +:+ " for K=" +:+ str_of_int k))
   else Ok (without "_" body)).
Proof.
  intros Hb. unfold RandAll._plain_bits, index_last.
  rewrite (last_split_app _ _ _ Hb). simpl. rewrite replace_empty. reflexivity.
Qed.

(** The rand-all encoder either returns bits of the right length or
    raises a [ValueError]. *)
Lemma plain_bits_cases (pattern : string) (k : Z) :
  (exists bits, RandAll._plain_bits pattern k = Ok bits /\ 0 <= k /\ len_str bits = 2 ^ k) \/
  raises_ValueError (RandAll._plain_bits pattern k).
Proof.
  unfold RandAll._plain_bits, index_last.
  pose proof (split_nonempty "b" pattern) as Hne.
  destruct (last (split "b" pattern)) as [piece|] eqn:Hl.
  - simpl. destruct (lshift_cases 1 k) as [[Hk ->]|[Hk ->]]; simpl.
    + rewrite Z.shiftl_1_l. case_bool_decide as Hlen.
      * right. eexists. reflexivity.
      * left. eexists. split; [reflexivity |]. split; [assumption | lia].
    + right. eexists. reflexivity.
  - apply last_None in Hl. contradiction.
Qed.

End Encoders.

(** ** Width checks of the encoders *)

(** C7: for every [k], a literal [prefix b body] whose stripped bit
    sequence (the body without its underscores) has exactly [2^k] bits
    is encoded with success, as exactly these bits by the rand-all
    encoder and as [n] whole copies of them by the cell-mask encoder;
    with any other stripped bit count both encoders raise a
    [ValueError], so that nothing is truncated or padded. *)
Theorem C7_stripped_width_decides (prefix body : string) (n k : Z) :
  0 <= k ->
  occurs "b" prefix = false ->
  occurs "b" body = false ->
  (len_str (without "_" body) = 2 ^ k ->
     RandAll._plain_bits (prefix +:+ "b" +:+ body) k = Ok (without "_" body) /\
     CellMask._generate_init_values n k (prefix +:+ "b" +:+ body) =
       Ok (str_of_int (len_str (str_mul (without "_" body) n)) +:+ "'b"
           +:+ str_mul (without "_" body) n)) /\
  (len_str (without "_" body) <> 2 ^ k ->
     raises_ValueError (RandAll._plain_bits (prefix +:+ "b" +:+ body) k) /\
     raises_ValueError (CellMask._generate_init_values n k (prefix +:+ "b" +:+ body))).
Proof.
  intros Hk Hp Hb. change ("b" +:+ body) with (String "b" body).
  rewrite (plain_bits_app _ _ _ Hb), (generate_init_values_app _ _ _ _ Hp).
  rewrite (lshift_nonneg _ Hk). simpl.
  split; intros Hlen.
  - rewrite bool_decide_eq_false_2 by (intros H; apply H; exact Hlen). split; reflexivity.
  - rewrite bool_decide_eq_true_2 by exact Hlen. split; eexists; reflexivity.
Qed.

Lemma C7_stripped_width_decides_witness :
  (RandAll._plain_bits "16'b0001_0110_0110_1000" 4 = Ok "0001011001101000" /\
   CellMask._generate_init_values 3 4 "16'b0001_0110_0110_1000" =
     Ok "48'b000101100110100000010110011010000001011001101000") /\
  (raises_ValueError (RandAll._plain_bits "16'b0001_0110_0110" 4) /\
   raises_ValueError (CellMask._generate_init_values 3 4 "16'b0001_0110_0110")).
Proof.
  split.
  - apply (C7_stripped_width_decides "16'" "0001_0110_0110_1000" 3 4);
      [lia | reflexivity | reflexivity | reflexivity].
  - apply (C7_stripped_width_decides "16'" "0001_0110_0110" 3 4);
      [lia | reflexivity | reflexivity | vm_compute; discriminate].
Defined.

(** C3, as the specification states it, fails: the literal
    [8'b0001_0110_0110_1000] declares 8 bits, which is not [2^4], and
    both encoders accept it for [K = 4]. *)
Lemma C3_counterexample :
  declared_width "8'b0001_0110_0110_1000" = Some 8 /\
  8 <> 2 ^ 4 /\
  CellMask._generate_init_values 1 4 "8'b0001_0110_0110_1000" = Ok "16'b0001011001101000" /\
  RandAll._plain_bits "8'b0001_0110_0110_1000" 4 = Ok "0001011001101000".
Proof. repeat split; try reflexivity. vm_compute. discriminate. Qed.

(** C3, amended: the encoders never read the declared width. Two
    literals that differ only in what precedes the [b] separator are
    accepted or rejected alike, with the same bits when accepted; and
    whatever that prefix says, a literal whose stripped bit count is
    [2^k] is accepted. *)
Theorem C3_declared_width_not_read (prefix prefix' body : string) (n k : Z) :
  occurs "b" prefix = false ->
  occurs "b" prefix' = false ->
  occurs "b" body = false ->
  CellMask._generate_init_values n k (prefix +:+ "b" +:+ body) =
    CellMask._generate_init_values n k (prefix' +:+ "b" +:+ body) /\
  (forall bits, RandAll._plain_bits (prefix +:+ "b" +:+ body) k = Ok bits <->
                RandAll._plain_bits (prefix' +:+ "b" +:+ body) k = Ok bits) /\
  (raises (RandAll._plain_bits (prefix +:+ "b" +:+ body) k) <->
   raises (RandAll._plain_bits (prefix' +:+ "b" +:+ body) k)) /\
  (0 <= k -> len_str (without "_" body) = 2 ^ k ->
   CellMask._generate_init_values n k (prefix +:+ "b" +:+ body) =
     Ok (str_of_int (len_str (str_mul (without "_" body) n)) +:+ "'b"
         +:+ str_mul (without "_" body) n) /\
   RandAll._plain_bits (prefix +:+ "b" +:+ body) k = Ok (without "_" body)).
Proof.
  intros Hp Hp' Hb. change ("b" +:+ body) with (String "b" body).
  rewrite !(plain_bits_app _ _ _ Hb).
  rewrite (generate_init_values_app _ _ _ _ Hp), (generate_init_values_app _ _ _ _ Hp').
  split; [reflexivity |].
  destruct (lshift_cases 1 k) as [[Hk ->]|[Hk ->]]; simpl.
  - rewrite Z.shiftl_1_l. case_bool_decide as Hlen.
    + split; [| split].
      * intros bits. split; intros H; discriminate H.
      * split; intros _; eexists; reflexivity.
      * intros _ Hlen'. contradiction.
    + split; [| split].
      * intros bits. reflexivity.
      * reflexivity.
      * intros _ _. split; reflexivity.
  - split; [| split].
    + intros bits. split; intros H; discriminate H.
    + split; intros _; eexists; reflexivity.
    + intros Hk'. lia.
Qed.

Lemma C3_declared_width_not_read_witness :
  CellMask._generate_init_values 1 4 "8'b0001_0110_0110_1000" =
    CellMask._generate_init_values 1 4 "16'b0001_0110_0110_1000" /\
  CellMask._generate_init_values 1 4 "8'b0001_0110_0110_1000" = Ok "16'b0001011001101000" /\
  RandAll._plain_bits "8'b0001_0110_0110_1000" 4 = Ok "0001011001101000".
Proof.
  pose proof (C3_declared_width_not_read "8'" "16'" "0001_0110_0110_1000" 1 4
                eq_refl eq_refl eq_refl) as (Heq & _ & _ & Hok).
  split; [exact Heq |].
  apply Hok; [lia | reflexivity].
Defined.

(** ** The row-extension record of the Diff Analyzer *)

Section RowExtension.

Variables (off_path : string) (xor : list Z) (activated : Z).

Lemma extra_pattern_type (res : option row) :
  CellMask._extra off_path xor activated res !! "pattern_type" =
  Some (if bool_decide (row_index res = 0) then "base" else "inverted").
Proof. unfold CellMask._extra. now rewrite lookup_insert_eq. Qed.

Lemma extra_other_columns (res : option row) (key : string) :
  key <> "pattern_type" ->
  CellMask._extra off_path xor activated res !! key =
  ({[ "lut_config_bits_file" := off_path;
      "lut_config_bits" := join "," (map str_of_int xor);
      "activated_luts" := str_of_int activated ]} : cols) !! key.
Proof. intros Hkey. unfold CellMask._extra. now rewrite lookup_insert_ne. Qed.

Lemma row_index_zero (res : option row) :
  row_index res = 0 <-> exists r, res = Some r /\ param_index r = Some 0.
Proof.
  unfold row_index. split.
  - destruct res as [r|]; [| discriminate].
    destruct (param_index r) as [i|] eqn:Hi; simpl; [| discriminate].
    intros ->. now exists r.
  - intros (r & -> & ->). reflexivity.
Qed.

End RowExtension.

(** C10: the row-extension record tags a row ["base"] exactly when the
    row carries [param_index] 0, and ["inverted"] in every other case,
    among them a row without [param_index] and a [None] row context,
    which both read as index -1; the three other columns hold the
    artifact path, the comma-joined bit list and the affected-LUT count,
    the same for every row. *)
Theorem C10_extra_tags_rows (off_path : string) (xor : list Z) (activated : Z) :
  (forall res,
     CellMask._extra off_path xor activated res !! "pattern_type" = Some "base" <->
     exists r, res = Some r /\ param_index r = Some 0) /\
  (forall res,
     ~ (exists r, res = Some r /\ param_index r = Some 0) ->
     CellMask._extra off_path xor activated res !! "pattern_type" = Some "inverted") /\
  (row_index None = -1 /\
   CellMask._extra off_path xor activated None !! "pattern_type" = Some "inverted") /\
  (forall r, param_index r = None ->
     row_index (Some r) = -1 /\
     CellMask._extra off_path xor activated (Some r) !! "pattern_type" = Some "inverted") /\
  (forall res res' key, key <> "pattern_type" ->
     CellMask._extra off_path xor activated res !! key =
     CellMask._extra off_path xor activated res' !! key) /\
  (forall res,
     CellMask._extra off_path xor activated res !! "lut_config_bits_file" = Some off_path /\
     CellMask._extra off_path xor activated res !! "lut_config_bits" =
       Some (join "," (map str_of_int xor)) /\
     CellMask._extra off_path xor activated res !! "activated_luts" =
       Some (str_of_int activated) /\
     dom (CellMask._extra off_path xor activated res) =
       {[ "pattern_type"; "lut_config_bits_file"; "lut_config_bits"; "activated_luts" ]}).
Proof.
  split; [| split; [| split; [| split; [| split]]]].
  - intros res. rewrite extra_pattern_type, <- row_index_zero.
    case_bool_decide; split; (congruence || discriminate || trivial).
  - intros res Hno. rewrite extra_pattern_type.
    rewrite <- row_index_zero in Hno. now rewrite bool_decide_eq_false_2.
  - split; reflexivity.
  - intros r Hr. rewrite extra_pattern_type. unfold row_index. rewrite Hr. split; reflexivity.
  - intros res res' key Hkey. now rewrite !extra_other_columns.
  - intros res. rewrite !extra_other_columns by discriminate.
    split; [| split; [| split]].
    + now rewrite lookup_insert_eq.
    + rewrite lookup_insert_ne by discriminate. now rewrite lookup_insert_eq.
    + rewrite !lookup_insert_ne by discriminate. now rewrite lookup_singleton_eq.
    + unfold CellMask._extra. rewrite !dom_insert_L, dom_singleton_L. set_solver.
Qed.

Lemma C10_extra_tags_rows_witness :
  CellMask._extra "fz/output/bits.off" [1; 9] 1 (Some base_example) !! "pattern_type"
    = Some "base" /\
  CellMask._extra "fz/output/bits.off" [1; 9] 1 (Some inv_example) !! "pattern_type"
    = Some "inverted" /\
  CellMask._extra "fz/output/bits.off" [1; 9] 1 None !! "pattern_type" = Some "inverted".
Proof.
  destruct (C10_extra_tags_rows "fz/output/bits.off" [1; 9] 1) as (Hbase & Hinv & _).
  split; [| split].
  - apply Hbase. exists base_example. split; reflexivity.
  - apply Hinv. intros (r & Hr & Hidx). injection Hr as <-. discriminate Hidx.
  - apply Hinv. intros (r & Hr & _). discriminate Hr.
Defined.

(** ** The random-chain designer *)

Section ChainDesigner.

Lemma advance_0 (w : world) : advance 0 w = w.
Proof. destruct w as [c d t tr]. unfold advance. simpl. f_equal. lia. Qed.

Lemma advance_advance (a b : nat) (w : world) :
  advance b (advance a w) = advance (a + b) w.
Proof. unfold advance. simpl. f_equal. lia. Qed.

Lemma bind_lift_ok {A B} (a : A) (k : A -> action B) (w : world) :
  (lift (Ok a) ≫= k) w = k a w.
Proof. reflexivity. Qed.

Lemma bind_lift_raise {A B} (e : exn) (k : A -> action B) (w : world) :
  (lift (Raise e) ≫= k) w = (Raise e, w).
Proof. reflexivity. Qed.

Lemma bind_run_ok {A B} (m : action A) (k : A -> action B) (w w' : world) (a : A) :
  m w = (Ok a, w') -> (m ≫= k) w = k a w'.
Proof. intros H. unfold mbind, action_bind. now rewrite H. Qed.

Lemma bind_run_raise {A B} (m : action A) (k : A -> action B) (w w' : world) (e : exn) :
  m w = (Raise e, w') -> (m ≫= k) w = (Raise e, w').
Proof. intros H. unfold mbind, action_bind. now rewrite H. Qed.

Lemma random_bits_run (m : nat) (w : world) :
  RandAll.random_bits m w = (Ok (coin_bits (coin w) (draws w) m), advance m w).
Proof.
  revert w. induction m as [|m IH]; intros w.
  - simpl. unfold mret, action_ret. now rewrite advance_0.
  - simpl. unfold mbind, action_bind, random_choice_01.
    rewrite IH. simpl. unfold mret, action_ret, bit_char. f_equal.
    unfold advance. simpl. f_equal. lia.
Qed.

Lemma fill_run (lut_bits : Z) (slots : nat) (static_bits : list string) (w : world) :
  RandAll.fill lut_bits slots static_bits w =
  (Ok (static_bits ++ random_chain (coin w) (draws w) (Z.to_nat lut_bits) slots)%list,
   advance (slots * Z.to_nat lut_bits) w).
Proof.
  revert static_bits w. induction slots as [|slots IH]; intros static_bits w.
  - simpl. unfold mret, action_ret. now rewrite app_nil_r, advance_0.
  - simpl. rewrite (bind_run_ok _ _ _ _ _ (random_bits_run _ w)).
    rewrite IH. rewrite <- app_assoc. simpl. now rewrite advance_advance.
Qed.

Lemma length_coin_bits (source : nat -> bool) (start count : nat) :
  String.length (coin_bits source start count) = count.
Proof. revert start. induction count as [|c IH]; intros start; simpl; [reflexivity | now rewrite IH]. Qed.

Lemma get_coin_bits (source : nat -> bool) (start count i : nat) :
  (i < count)%nat ->
  String.get i (coin_bits source start count) = Some (bit_char (source (start + i)%nat)).
Proof.
  revert start i. induction count as [|c IH]; intros start i Hi; [lia |].
  destruct i as [|i]; simpl.
  - now rewrite Nat.add_0_r.
  - rewrite IH by lia. do 3 f_equal. lia.
Qed.

Lemma length_random_chain (source : nat -> bool) (start width slots : nat) :
  length (random_chain source start width slots) = slots.
Proof. revert start. induction slots as [|s IH]; intros start; simpl; [reflexivity | now rewrite IH]. Qed.

Lemma lookup_random_chain (source : nat -> bool) (start width slots j : nat) :
  (j < slots)%nat ->
  random_chain source start width slots !! j =
  Some (coin_bits source (start + j * width) width).
Proof.
  revert start j. induction slots as [|s IH]; intros start j Hj; [lia |].
  destruct j as [|j]; simpl.
  - now rewrite Nat.add_0_r.
  - rewrite IH by lia. do 2 f_equal. lia.
Qed.

(** The list comprehension over the static patterns: either every
    pattern is encoded, or a [ValueError] leaves it. *)
Lemma comprehension_plain_bits (k : Z) (statics : list string) :
  (exists static_bits,
     comprehension (fun pat => RandAll._plain_bits pat k) statics = Ok static_bits /\
     Forall2 (fun pat bits => RandAll._plain_bits pat k = Ok bits) statics static_bits) \/
  raises_ValueError (comprehension (fun pat => RandAll._plain_bits pat k) statics).
Proof.
  induction statics as [|pat statics IH]; simpl.
  - left. exists []. split; [reflexivity | constructor].
  - destruct (plain_bits_cases pat k) as [(bits & Hb & _)|[msg Hr]].
    + rewrite Hb. simpl. destruct IH as [(bs & -> & HF)|[msg Hr]].
      * left. exists (bits :: bs). split; [reflexivity | now constructor].
      * right. rewrite Hr. now exists msg.
    + right. rewrite Hr. now exists msg.
Qed.

Lemma comprehension_Forall2 (k : Z) (statics static_bits : list string) :
  Forall2 (fun pat bits => RandAll._plain_bits pat k = Ok bits) statics static_bits ->
  comprehension (fun pat => RandAll._plain_bits pat k) statics = Ok static_bits.
Proof. induction 1 as [|pat bits ps bs Hb _ IH]; simpl; [reflexivity | now rewrite Hb, IH]. Qed.

(** More static patterns than slots: the design fails, whatever else
    holds of its input, and leaves the world as it was. *)
Lemma chain_bits_overflow (n k : Z) (statics : list string) (w : world) :
  len statics > n ->
  exists msg, RandAll.chain_bits n k statics w = (Raise (ValueError msg), w).
Proof.
  intros Hlen. unfold RandAll.chain_bits.
  destruct (lshift_cases 1 k) as [[Hk ->]|[Hk ->]].
  - rewrite bind_lift_ok.
    destruct (comprehension_plain_bits k statics) as [(bs & -> & HF)|[msg ->]].
    + rewrite bind_lift_ok. apply Forall2_length in HF.
      rewrite bool_decide_eq_true_2 by (unfold len in *; lia).
      eexists. reflexivity.
    + rewrite bind_lift_raise. now exists msg.
  - rewrite bind_lift_raise. eexists. reflexivity.
Qed.

(** Well-formed static patterns that fit: the chain is the static bits
    followed by one random pattern for each slot left. *)
Lemma chain_bits_fits (n k : Z) (statics static_bits : list string) (w : world) :
  0 <= k ->
  len statics <= n ->
  Forall2 (fun pat bits => RandAll._plain_bits pat k = Ok bits) statics static_bits ->
  RandAll.chain_bits n k statics w =
  (Ok (static_bits ++ random_chain (coin w) (draws w) (Z.to_nat (2 ^ k))
                        (Z.to_nat (n - len statics)))%list,
   advance (Z.to_nat (n - len statics) * Z.to_nat (2 ^ k)) w).
Proof.
  intros Hk Hlen HF. unfold RandAll.chain_bits.
  rewrite (lshift_nonneg _ Hk), bind_lift_ok.
  rewrite (comprehension_Forall2 _ _ _ HF), bind_lift_ok.
  apply Forall2_length in HF.
  rewrite bool_decide_eq_false_2 by (unfold len in *; lia).
  rewrite fill_run. unfold len in *. now rewrite HF.
Qed.

Lemma build_of_chain (n k : Z) (statics chain : list string) (w w' : world) :
  RandAll.chain_bits n k statics w = (Ok chain, w') ->
  RandAll._build_flat_init_literal n k statics w = (Ok (flat_literal chain), w').
Proof.
  intros H. unfold RandAll._build_flat_init_literal.
  now rewrite (bind_run_ok _ _ _ _ _ H).
Qed.

Lemma build_of_chain_raise (n k : Z) (statics : list string) (w w' : world) (e : exn) :
  RandAll.chain_bits n k statics w = (Raise e, w') ->
  RandAll._build_flat_init_literal n k statics w = (Raise e, w').
Proof.
  intros H. unfold RandAll._build_flat_init_literal.
  now rewrite (bind_run_raise _ _ _ _ _ H).
Qed.

End ChainDesigner.

(** ** Packing a chain into one literal *)

Section Packing.

Lemma join_cons (x : string) (xs : list string) :
  join "" (x :: xs) = x +:+ join "" xs.
Proof.
  unfold join. destruct xs as [|y ys]; simpl.
  - now rewrite append_empty_r.
  - now rewrite append_nil.
Qed.

Lemma substring_skip (s t : string) (n m : nat) :
  String.substring (String.length s + n) m (s +:+ t) = String.substring n m t.
Proof.
  induction s as [|c s IH]; [reflexivity |].
  rewrite append_cons. simpl. exact IH.
Qed.

Lemma substring_prefix (s t : string) :
  String.substring 0 (String.length s) (s +:+ t) = s.
Proof.
  induction s as [|c s IH].
  - simpl. now destruct t.
  - rewrite append_cons. simpl. now rewrite IH.
Qed.




Lemma plain_bits_length (pattern bits : string) (k : Z) :
  RandAll._plain_bits pattern k = Ok bits ->
  0 <= k /\ String.length bits = Z.to_nat (2 ^ k).
Proof.
  intros H. destruct (plain_bits_cases pattern k) as [(b & Hb & Hk & Hlen)|[msg Hr]].
  - rewrite H in Hb. injection Hb as <-. split; [assumption |].
    unfold len_str in Hlen. lia.
  - rewrite H in Hr. discriminate.
Qed.

Lemma static_bits_width (k : Z) (statics static_bits : list string) :
  Forall2 (fun pat bits => RandAll._plain_bits pat k = Ok bits) statics static_bits ->
  Forall (fun y => String.length y = Z.to_nat (2 ^ k)) static_bits.
Proof.
  induction 1 as [|pat bits ps bs Hb _ IH]; constructor; [| exact IH].
  now apply plain_bits_length in Hb.
Qed.

Lemma random_chain_width (source : nat -> bool) (start width slots : nat) :
  Forall (fun y => String.length y = width) (random_chain source start width slots).
Proof.
  revert start. induction slots as [|s IH]; intros start; simpl; constructor;
    [apply length_coin_bits | apply IH].
Qed.


End Packing.

(** C4, as the specification states it, fails: a chain of zero LUTs
    with no static pattern is packed without an error, into the literal
    [0'b]. *)
Lemma C4_counterexample :
  RandAll._build_flat_init_literal 0 4 [] world0 = (Ok "0'b", world0) /\
  ~ raises (fst (RandAll._build_flat_init_literal 0 4 [] world0)).
Proof.
  assert (H : RandAll._build_flat_init_literal 0 4 [] world0 = (Ok "0'b", world0))
    by reflexivity.
  split; [exact H |]. rewrite H. intros [e He]. discriminate He.
Qed.

(** C4, amended: packing fails, with a [ValueError] and before any
    random bit is drawn, when there are more static patterns than the
    [n] slots of the chain; an empty sequence is no error, and with
    [n = 0] and no static pattern the builder returns the literal
    [0'b]. *)
Theorem C4_pack_rejects_overflow (n k : Z) (statics : list string) (w : world) :
  (len statics > n ->
     raises_ValueError (fst (RandAll._build_flat_init_literal n k statics w)) /\
     snd (RandAll._build_flat_init_literal n k statics w) = w) /\
  (0 <= k -> RandAll._build_flat_init_literal 0 k [] w = (Ok "0'b", w)).
Proof.
  split.
  - intros Hlen. destruct (chain_bits_overflow n k statics w Hlen) as [msg H].
    rewrite (build_of_chain_raise _ _ _ _ _ _ H). simpl. split; [now exists msg | reflexivity].
  - intros Hk. unfold RandAll._build_flat_init_literal, RandAll.chain_bits.
    rewrite (lshift_nonneg _ Hk). reflexivity.
Qed.

Lemma C4_pack_rejects_overflow_witness :
  (raises_ValueError (fst (RandAll._build_flat_init_literal 1 2 ["4'b0001"; "4'b1000"] world0)) /\
   snd (RandAll._build_flat_init_literal 1 2 ["4'b0001"; "4'b1000"] world0) = world0) /\
  RandAll._build_flat_init_literal 0 2 [] world0 = (Ok "0'b", world0).
Proof.
  split.
  - apply (C4_pack_rejects_overflow 1 2 ["4'b0001"; "4'b1000"] world0). reflexivity.
  - apply (C4_pack_rejects_overflow 0 2 ["4'b0001"] world0). lia.
Defined.

(** As many well-formed static patterns as slots: the chain is exactly
    the static bits and the world stays as it was. *)
Lemma build_full_chain (k : Z) (statics static_bits : list string) (w : world) :
  0 <= k ->
  Forall2 (fun pat bits => RandAll._plain_bits pat k = Ok bits) statics static_bits ->
  RandAll.chain_bits (len statics) k statics w = (Ok static_bits, w) /\
  RandAll._build_flat_init_literal (len statics) k statics w =
    (Ok (flat_literal static_bits), w).
Proof.
  intros Hk HF.
  assert (Hc : RandAll.chain_bits (len statics) k statics w = (Ok static_bits, w)).
  { rewrite (chain_bits_fits (len statics) k statics static_bits w Hk (Z.le_refl _) HF).
    replace (len statics - len statics) with 0 by lia. simpl.
    now rewrite app_nil_r, advance_0. }
  split; [exact Hc | now apply build_of_chain].
Qed.

(** C6: with more static literals than slots the design always fails
    with a [ValueError], the one of the overflow when the literals
    themselves are well formed; with exactly [n] static literals no
    random bit is drawn and the chain is the static patterns; with no
    static literal each of the [n] slots holds [2^k] bits, every bit a
    draw of its own of the random source. *)
Theorem C6_chain_designer (n k : Z) (statics : list string) (w : world) :
  (len statics > n ->
     raises_ValueError (fst (RandAll._build_flat_init_literal n k statics w)) /\
     snd (RandAll._build_flat_init_literal n k statics w) = w) /\
  (len statics > n -> 0 <= k ->
     (exists static_bits,
        Forall2 (fun pat bits => RandAll._plain_bits pat k = Ok bits) statics static_bits) ->
     RandAll._build_flat_init_literal n k statics w =
       (Raise (ValueError "More static patterns than LUTs in the chain"), w)) /\
  (len statics = n -> 0 <= k ->
     forall static_bits,
       Forall2 (fun pat bits => RandAll._plain_bits pat k = Ok bits) statics static_bits ->
       RandAll.chain_bits n k statics w = (Ok static_bits, w) /\
       RandAll._build_flat_init_literal n k statics w = (Ok (flat_literal static_bits), w)) /\
  (statics = [] -> 0 <= n -> 0 <= k ->
     exists chain,
       RandAll.chain_bits n k statics w =
         (Ok chain, advance (Z.to_nat n * Z.to_nat (2 ^ k)) w) /\
       RandAll._build_flat_init_literal n k statics w =
         (Ok (flat_literal chain), advance (Z.to_nat n * Z.to_nat (2 ^ k)) w) /\
       len chain = n /\
       forall j i : nat, (j < Z.to_nat n)%nat -> (i < Z.to_nat (2 ^ k))%nat ->
         exists rnd,
           chain !! j = Some rnd /\
           String.length rnd = Z.to_nat (2 ^ k) /\
           String.get i rnd =
             Some (bit_char (coin w (draws w + j * Z.to_nat (2 ^ k) + i)%nat))).
Proof.
  split; [| split; [| split]].
  - intros Hlen. destruct (chain_bits_overflow n k statics w Hlen) as [msg H].
    rewrite (build_of_chain_raise _ _ _ _ _ _ H). simpl. split; [now exists msg | reflexivity].
  - intros Hlen Hk [static_bits HF]. apply build_of_chain_raise.
    unfold RandAll.chain_bits.
    rewrite (lshift_nonneg _ Hk), bind_lift_ok.
    rewrite (comprehension_Forall2 _ _ _ HF), bind_lift_ok.
    apply Forall2_length in HF.
    rewrite bool_decide_eq_true_2 by (unfold len in *; lia). reflexivity.
  - intros <- Hk static_bits HF. now apply build_full_chain.
  - intros -> Hn Hk.
    pose proof (chain_bits_fits n k [] [] w Hk ltac:(unfold len; simpl; lia)
                  ltac:(constructor)) as Hc.
    replace (n - len []) with n in Hc by (unfold len; simpl; lia). simpl in Hc.
    eexists. split; [exact Hc |]. split; [now apply build_of_chain |]. split.
    + unfold len. rewrite length_random_chain. lia.
    + intros j i Hj Hi. eexists.
      split; [now apply lookup_random_chain |].
      split; [apply length_coin_bits |].
      rewrite get_coin_bits by exact Hi. reflexivity.
Qed.

Lemma C6_chain_designer_witness :
  RandAll._build_flat_init_literal 1 2 ["4'b0001"; "4'b1000"] world0 =
    (Raise (ValueError "More static patterns than LUTs in the chain"), world0) /\
  RandAll._build_flat_init_literal 2 2 ["4'b0001"; "4'b1000"] world0 =
    (Ok "8'b10000001", world0) /\
  exists chain,
    RandAll.chain_bits 2 2 [] world0 = (Ok chain, advance 8 world0) /\
    chain !! 1%nat = Some "1010".
Proof.
  pose proof (C6_chain_designer 1 2 ["4'b0001"; "4'b1000"] world0) as (_ & H1 & _ & _).
  pose proof (C6_chain_designer 2 2 ["4'b0001"; "4'b1000"] world0) as (_ & _ & H2 & _).
  pose proof (C6_chain_designer 2 2 [] world0) as (_ & _ & _ & H3).
  split; [| split].
  - apply H1; [reflexivity | lia |].
    exists ["0001"; "1000"]. repeat constructor.
  - apply (H2 eq_refl ltac:(lia) ["0001"; "1000"]). repeat constructor.
  - destruct (H3 eq_refl ltac:(lia) ltac:(lia)) as (chain & Hc & _ & _ & _).
    exists chain. split; [exact Hc |].
    vm_compute in Hc. injection Hc as <-. reflexivity.
Defined.


(** ** Binary64 division

    What the scripts need of the float model: the quotients they form
    are floats, and a quotient by a power of two is exact. *)

Section Floats.

Lemma digits2_pos_size (p : positive) : digits2_pos p = Pos.size p.
Proof. induction p as [p IH|p IH|]; simpl; congruence. Qed.

Lemma Zdigits2_log2 (m : Z) : 0 < m -> Zdigits2 m = Z.log2 m + 1.
Proof.
  destruct m as [|p|p]; try lia. intros _. simpl. rewrite digits2_pos_size.
  destruct p as [p|p|]; simpl; lia.
Qed.



Lemma Zdigits2_le (m d : Z) : 0 <= m -> 0 <= d -> m < 2 ^ d -> Zdigits2 m <= d.
Proof.
  intros Hm Hd Hlt. destruct (Z.eq_dec m 0) as [->|Hne]; [simpl; lia |].
  rewrite Zdigits2_log2 by lia.
  apply (Z.log2_lt_pow2 m d) in Hlt; lia.
Qed.








Lemma fexp_eq (e : Z) : fexp prec emax e = Z.max (e - 53) (-1074).
Proof. reflexivity. Qed.



Lemma div_eucl_div_mod (a b : Z) : Z.div_eucl a b = (a / b, a mod b).
Proof. unfold Z.div, Z.modulo. now destruct (Z.div_eucl a b). Qed.



Lemma shr_1_exact (m : Z) :
  0 <= m ->
  shr_1 (Build_shr_record (2 * m) false false) = Build_shr_record m false false.
Proof. destruct m as [|p|p]; try lia; reflexivity. Qed.

Lemma iter_shr_1_exact (p : positive) (c : Z) :
  0 <= c ->
  SpecFloat.iter_pos shr_1 p (Build_shr_record (c * 2 ^ Zpos p) false false) =
  Build_shr_record c false false.
Proof.
  revert c. induction p as [p IH|p IH|]; intros c Hc; cbn [SpecFloat.iter_pos].
  - replace (c * 2 ^ Z.pos p~1) with (2 * ((c * 2 ^ Z.pos p) * 2 ^ Z.pos p)).
    + rewrite shr_1_exact by (apply Z.mul_nonneg_nonneg; [apply Z.mul_nonneg_nonneg |]; lia).
      rewrite IH by (apply Z.mul_nonneg_nonneg; lia). now apply IH.
    + rewrite Pos2Z.inj_xI, Z.pow_add_r, Z.pow_mul_r by lia.
      rewrite <- Z.mul_assoc, <- Z.pow_add_r by lia.
      replace (Z.pos p + Z.pos p) with (2 * Z.pos p) by lia.
      rewrite Z.pow_mul_r by lia. change (2 ^ 1) with 2. lia.
  - replace (c * 2 ^ Z.pos p~0) with ((c * 2 ^ Z.pos p) * 2 ^ Z.pos p).
    + rewrite IH by (apply Z.mul_nonneg_nonneg; lia). now apply IH.
    + rewrite Pos2Z.inj_xO. rewrite <- Z.mul_assoc, <- Z.pow_add_r by lia.
      f_equal. f_equal. lia.
  - change (2 ^ 1) with 2. rewrite Z.mul_comm. now apply shr_1_exact.
Qed.

Lemma Zdigits2_mul_pow2 (c t : Z) :
  0 < c -> 0 <= t -> Zdigits2 (c * 2 ^ t) = Zdigits2 c + t.
Proof.
  intros Hc Ht.
  assert (0 < c * 2 ^ t) by (apply Z.mul_pos_pos; [lia | apply Z.pow_pos_nonneg; lia]).
  rewrite !Zdigits2_log2 by lia. rewrite Z.log2_mul_pow2 by lia. lia.
Qed.

(** Rounding a number that needs no rounding: [c * 2^t] with exponent
    [e], where [t] is the shift to the canonical exponent. *)
Lemma binary_round_aux_exact (sx : bool) (c t e : Z) :
  0 < c ->
  Z.max 0 (fexp prec emax (Zdigits2 (c * 2 ^ t) + e) - e) = t ->
  e + t <= 971 ->
  binary_round_aux prec emax sx (c * 2 ^ t) e loc_Exact = S754_finite sx (Z.to_pos c) (e + t).
Proof.
  intros Hc Ht He.
  assert (Ht0 : 0 <= t) by lia.
  assert (Hdig : Zdigits2 (c * 2 ^ t) = Zdigits2 c + t) by now apply Zdigits2_mul_pow2.
  assert (Hsecond : shr_fexp prec emax c (e + t) loc_Exact =
                    (Build_shr_record c false false, e + t)).
  { unfold shr_fexp. simpl shr_record_of_loc.
    rewrite Hdig in Ht.
    replace (Zdigits2 c + (e + t)) with (Zdigits2 c + t + e) by lia.
    destruct (fexp prec emax (Zdigits2 c + t + e) - (e + t)) as [|p|p] eqn:Hn;
      try reflexivity. lia. }
  unfold binary_round_aux.
  assert (Hfirst : shr_fexp prec emax (c * 2 ^ t) e loc_Exact =
                   (Build_shr_record c false false, e + t)).
  { unfold shr_fexp. simpl shr_record_of_loc.
    destruct (fexp prec emax (Zdigits2 (c * 2 ^ t) + e) - e) as [|p|p] eqn:Hn; simpl shr.
    - replace t with 0 by lia. rewrite Z.mul_1_r. now rewrite Z.add_0_r.
    - replace t with (Z.pos p) by lia. now rewrite iter_shr_1_exact by lia.
    - replace t with 0 by lia. rewrite Z.mul_1_r. now rewrite Z.add_0_r. }
  rewrite Hfirst. simpl loc_of_shr_record. simpl round_nearest_even. cbn [shr_m].
  rewrite Hsecond. cbn [shr_m].
  destruct c as [|pc|pc]; try lia.
  destruct (Z.leb_spec (e + t) (emax - prec)); [reflexivity |].
  unfold emax, prec in *. lia.
Qed.

(** The quotient of a natural number below [2^53] by [2^k], for [k]
    up to 1074, is exact: the float [c * 2^ex] it yields is the
    quotient itself. *)
Lemma truediv_pow2_exact (a k : Z) :
  0 < a < 2 ^ 53 -> 0 <= k <= 1074 ->
  exists c ex,
    truediv a (2 ^ k) = Ok (S754_finite false c ex) /\
    ex <= 0 /\ k <= - ex /\ Zpos c = a * 2 ^ (- ex - k).
Proof.
  intros Ha Hk. unfold truediv.
  assert (Hpow : 0 < 2 ^ k) by (apply Z.pow_pos_nonneg; lia).
  destruct (Z.eqb_spec (2 ^ k) 0) as [|_]; [lia |].
  destruct (2 ^ k) as [|pb|pb] eqn:Hb; try lia.
  destruct a as [|pa|pa]; try lia. simpl float_of_int. unfold SFdiv.
  destruct (SFdiv_core_binary prec emax (Z.pos pa) 0 (Z.pos pb) 0) as [[mz ez] lz] eqn:Hcore.
  unfold SFdiv_core_binary in Hcore.
  set (d1 := Zdigits2 (Z.pos pa)) in *.
  assert (Hd2 : Zdigits2 (Z.pos pb) = k + 1).
  { rewrite <- Hb. rewrite Zdigits2_log2 by lia. now rewrite Z.log2_pow2 by lia. }
  rewrite Hd2 in Hcore.
  assert (Hd1 : 1 <= d1 <= 53).
  { split.
    - unfold d1. rewrite Zdigits2_log2 by lia. pose proof (Z.log2_nonneg (Z.pos pa)). lia.
    - unfold d1. apply Zdigits2_le; lia. }
  set (e' := Z.min (fexp prec emax (d1 + 0 - (k + 1 + 0))) (0 - 0)) in *.
  assert (He' : e' = Z.max (d1 - k - 54) (-1074)) by (unfold e'; rewrite fexp_eq; lia).
  remember (- e') as s eqn:Hsdef.
  assert (Hs : k <= s) by lia.
  set (m' := match 0 - 0 - e' with
             | 0 => Z.pos pa
             | Z.pos _ => Z.shiftl (Z.pos pa) (0 - 0 - e')
             | Z.neg _ => 0
             end) in *.
  assert (Hm' : m' = Z.pos pa * 2 ^ (s - k) * 2 ^ k).
  { rewrite <- Z.mul_assoc, <- Z.pow_add_r by lia. replace (s - k + k) with s by lia.
    unfold m'. destruct (0 - 0 - e') as [|p|p] eqn:Hse.
    - replace s with 0 by lia. lia.
    - rewrite Z.shiftl_mul_pow2 by lia. f_equal. f_equal. lia.
    - lia. }
  rewrite div_eucl_div_mod in Hcore. rewrite <- Hb in Hcore.
  rewrite Hm' in Hcore. rewrite Z.div_mul, Z.mod_mul in Hcore by lia.
  assert (Hloc : new_location (2 ^ k) 0 = loc_Exact).
  { unfold new_location, new_location_even, new_location_odd. simpl.
    now destruct (Z.even (2 ^ k)). }
  rewrite Hloc in Hcore. injection Hcore as <- <- <-.
  set (t := Z.max 0 (fexp prec emax (d1 - k) + s)).
  assert (Ht : 0 <= t <= s - k) by (unfold t; rewrite fexp_eq; lia).
  replace (Z.pos pa * 2 ^ (s - k)) with ((Z.pos pa * 2 ^ (s - k - t)) * 2 ^ t).
  2:{ rewrite <- Z.mul_assoc, <- Z.pow_add_r by lia. f_equal. f_equal. lia. }
  assert (Hc : 0 < Z.pos pa * 2 ^ (s - k - t))
    by (apply Z.mul_pos_pos; [lia | apply Z.pow_pos_nonneg; lia]).
  rewrite binary_round_aux_exact; [| exact Hc | | lia].
  - simpl xorb. eexists. eexists. split; [reflexivity |].
    split; [lia |]. split; [lia |].
    rewrite Z2Pos.id by exact Hc. f_equal. f_equal. lia.
  - rewrite Zdigits2_mul_pow2 by lia.
    rewrite Zdigits2_mul_pow2 by lia. fold d1. unfold t. f_equal.
    replace (d1 + (s - k - Z.max 0 (fexp prec emax (d1 - k) + s)) +
             Z.max 0 (fexp prec emax (d1 - k) + s) + e') with (d1 - k) by lia.
    lia.
Qed.


(** The number of affected LUTs is the ceiling of the quotient, as
    long as the division is exact. *)
Lemma activated_luts_ceiling (xor : list Z) (k : Z) :
  len xor < 2 ^ 53 -> 0 <= k <= 1074 ->
  exists c, CellMask.activated_luts xor k = Ok c /\
            2 ^ k * (c - 1) < len xor <= 2 ^ k * c.
Proof.
  intros Hlen Hk. unfold CellMask.activated_luts.
  rewrite lshift_nonneg by lia. simpl.
  assert (Hpow : 0 < 2 ^ k) by (apply Z.pow_pos_nonneg; lia).
  assert (Hnn : 0 <= len xor) by (unfold len; lia).
  destruct (Z.eq_dec (len xor) 0) as [H0|Hne].
  - rewrite H0. exists 0. split; [| lia].
    unfold truediv. destruct (Z.eqb_spec (2 ^ k) 0); [lia |].
    destruct (2 ^ k) as [|p|p]; try lia. reflexivity.
  - destruct (truediv_pow2_exact (len xor) k ltac:(lia) Hk) as (c & ex & -> & Hex & Hkex & Hc).
    simpl. destruct (Z.leb_spec 0 ex) as [H0|Hneg].
    + assert (ex = 0) by lia. subst ex. assert (k = 0) by lia. subst k.
      exists (Z.pos c). split; [f_equal; lia |].
      rewrite Hc. change (2 ^ (- 0 - 0)) with 1. change (2 ^ 0) with 1. lia.
    + eexists. split; [reflexivity |].
      rewrite Hc.
      replace (2 ^ (- ex)) with (2 ^ k * 2 ^ (- ex - k))
        by (rewrite <- Z.pow_add_r by lia; f_equal; lia).
      rewrite <- Z.mul_opp_l.
      rewrite Z.div_mul_cancel_r
        by (try lia; apply Z.neq_sym, Z.lt_neq, Z.pow_pos_nonneg; lia).
      pose proof (Z.div_mod (- len xor) (2 ^ k) ltac:(lia)) as Hdm.
      pose proof (Z.mod_pos_bound (- len xor) (2 ^ k) Hpow) as Hmb.
      nia.
Qed.

End Floats.

(** ** The Diff Analyzer *)

Section DiffAnalyzer.

Lemma after_after (evs1 evs2 : list event) (w : world) :
  after evs2 (after evs1 w) = after (evs1 ++ evs2) w.
Proof. unfold after. simpl. now rewrite app_assoc. Qed.

Lemma emit_run (ev : event) (w : world) : emit ev w = (Ok tt, after [ev] w).
Proof. reflexivity. Qed.

Lemma bind_emit {B} (ev : event) (k : unit -> action B) (w : world) :
  (emit ev ≫= k) w = k tt (after [ev] w).
Proof. reflexivity. Qed.

Lemma bind_strftime_now {B} (k : string -> action B) (w : world) :
  (strftime_now ≫= k) w = k (now w) w.
Proof. reflexivity. Qed.

Lemma after_inj (evs1 evs2 : list event) (w : world) :
  after evs1 w = after evs2 w -> evs1 = evs2.
Proof. unfold after. intros H. injection H as H. now apply app_inv_head in H. Qed.

Lemma strongly_sorted_lt (l : list Z) :
  StronglySorted Z.le l -> NoDup l -> StronglySorted Z.lt l.
Proof.
  induction 1 as [|x l Hs IH Hle]; intros Hnd; constructor.
  - apply IH. now apply NoDup_cons_1_2 in Hnd.
  - apply NoDup_cons in Hnd as [Hx _].
    rewrite Forall_forall in Hle |- *. intros y Hy.
    assert (x <> y) by (intros ->; contradiction).
    specialize (Hle y Hy). lia.
Qed.

(** The list [xor]: in strictly ascending order, the offsets that are
    in exactly one of the two offset lists. *)
Lemma xor_offsets_spec (base inv : row) :
  StronglySorted Z.lt (CellMask.xor_offsets base inv) /\
  forall x, x ∈ CellMask.xor_offsets base inv <->
            (x ∈ offsets base /\ x ∉ offsets inv) \/ (x ∈ offsets inv /\ x ∉ offsets base).
Proof.
  unfold CellMask.xor_offsets, sorted, symmetric_difference. split.
  - apply strongly_sorted_lt.
    + apply StronglySorted_merge_sort; apply _.
    + rewrite merge_sort_Permutation. apply NoDup_elements.
  - intros x. rewrite merge_sort_Permutation, elem_of_elements.
    rewrite elem_of_union, !elem_of_difference, !elem_of_list_to_set. reflexivity.
Qed.

(** The first abort: the group does not hold two parameter sets. *)
Lemma analyze_aborts_on_count (fz : fuzzer) (dyn_params : list param_set) (w : world) :
  len dyn_params <> 2 ->
  CellMask._analyze_results fz dyn_params w =
  (Ok tt, after [LogWarning ("Aborted – expected two runs, got "
                             +:+ str_of_int (len dyn_params))] w).
Proof.
  intros Hlen. unfold CellMask._analyze_results.
  now rewrite bool_decide_eq_true_2 by exact Hlen.
Qed.

(** The second abort: no row of index 0, or no row of index 1. *)
Lemma analyze_aborts_on_missing_row (fz : fuzzer) (dyn_params : list param_set)
    (base inv : option row) (w : world) :
  len dyn_params = 2 ->
  CellMask.find_param_index 0 (results fz) = Ok base ->
  CellMask.find_param_index 1 (results fz) = Ok inv ->
  base = None \/ inv = None ->
  CellMask._analyze_results fz dyn_params w =
  (Ok tt, after [LogWarning "Aborted – missing result rows"] w).
Proof.
  intros Hlen Hb Hi Hnone. unfold CellMask._analyze_results.
  rewrite bool_decide_eq_false_2 by (intros H; apply H; exact Hlen).
  rewrite Hb, Hi, !bind_lift_ok.
  destruct Hnone as [-> | ->]; [reflexivity | now destruct base].
Qed.

(** Both rows are there: the analysis goes through, whatever their
    [success] flags are. *)
Lemma analyze_goes_through (fz : fuzzer) (p0 p1 : param_set) (base inv : row)
    (activated : Z) (w : world) :
  CellMask.find_param_index 0 (results fz) = Ok (Some base) ->
  CellMask.find_param_index 1 (results fz) = Ok (Some inv) ->
  CellMask.activated_luts (CellMask.xor_offsets base inv)
    (vp_K (ps_verilog_parameters p0)) = Ok activated ->
  let xor := CellMask.xor_offsets base inv in
  let off_path := fuzzer_dir fz +:+ "/output/lut_config_bits_" +:+ now w +:+ ".off" in
  CellMask._analyze_results fz [p0; p1] w =
  (Ok tt,
   after [LogInfo ("→ " +:+ str_of_int (len xor) +:+ " differing configuration bits found");
          LogInfo ("→ affects " +:+ str_of_int activated +:+ " LUTs (K="
                   +:+ str_of_int (vp_K (ps_verilog_parameters p0)) +:+ ")");
          WriteText off_path (join nl (map str_of_int xor));
          LogInfo ("Offset list written → " +:+ off_path);
          SaveResultsToDb (fun res => Ok (CellMask._extra off_path xor activated res))
            [p0; p1]] w).
Proof.
  intros Hb Hi Hact xor off_path. subst xor off_path. unfold CellMask._analyze_results.
  rewrite bool_decide_eq_false_2 by (intros H; now apply H).
  rewrite Hb, Hi, !bind_lift_ok.
  unfold log_info, write_text, save_results_to_db.
  rewrite bind_emit, bind_lift_ok. rewrite Hact, bind_lift_ok.
  rewrite bind_emit, bind_strftime_now, bind_emit, bind_emit, emit_run.
  rewrite !after_after. reflexivity.
Qed.

End DiffAnalyzer.

(** C2: with [base] the result of index 0 and [inv] the result of
    index 1, the list [xor] is the symmetric difference of their
    offsets in strictly ascending order, and the number of affected
    LUTs is the ceiling of [len(xor) / 2^k]: the integer [c] with
    [2^k * (c - 1) < len(xor) <= 2^k * c]. Both are what the analyzer
    writes and hands to the results store. This holds when the
    division is exact in binary64, for fewer than [2^53] differing
    bits and [k] up to 1074. For the offsets [1, 2, 5] and [2, 5, 9]
    and [k = 4], [xor] is [1, 9] and one LUT is affected. *)
Theorem C2_xor_and_lut_count (fz : fuzzer) (p0 p1 : param_set) (base inv : row)
    (w : world) :
  CellMask.find_param_index 0 (results fz) = Ok (Some base) ->
  CellMask.find_param_index 1 (results fz) = Ok (Some inv) ->
  len (CellMask.xor_offsets base inv) < 2 ^ 53 ->
  0 <= vp_K (ps_verilog_parameters p0) <= 1074 ->
  let xor := CellMask.xor_offsets base inv in
  let k := vp_K (ps_verilog_parameters p0) in
  let off_path := fuzzer_dir fz +:+ "/output/lut_config_bits_" +:+ now w +:+ ".off" in
  StronglySorted Z.lt xor /\
  (forall x, x ∈ xor <->
             (x ∈ offsets base /\ x ∉ offsets inv) \/ (x ∈ offsets inv /\ x ∉ offsets base)) /\
  (exists lut_count,
     CellMask.activated_luts xor k = Ok lut_count /\
     2 ^ k * (lut_count - 1) < len xor <= 2 ^ k * lut_count /\
     CellMask._analyze_results fz [p0; p1] w =
     (Ok tt,
      after [LogInfo ("→ " +:+ str_of_int (len xor) +:+ " differing configuration bits found");
             LogInfo ("→ affects " +:+ str_of_int lut_count +:+ " LUTs (K="
                      +:+ str_of_int k +:+ ")");
             WriteText off_path (join nl (map str_of_int xor));
             LogInfo ("Offset list written → " +:+ off_path);
             SaveResultsToDb (fun res => Ok (CellMask._extra off_path xor lut_count res))
               [p0; p1]] w)) /\
  (offsets base = [1; 2; 5] -> offsets inv = [2; 5; 9] -> k = 4 ->
   xor = [1; 9] /\ CellMask.activated_luts xor k = Ok 1).
Proof.
  intros Hb Hi Hlen Hk xor k off_path.
  destruct (xor_offsets_spec base inv) as [Hsorted Hmem].
  split; [exact Hsorted |]. split; [exact Hmem |]. split.
  - destruct (activated_luts_ceiling xor k Hlen Hk) as (c & Hc & Hceil).
    exists c. split; [exact Hc |]. split; [exact Hceil |].
    now apply analyze_goes_through.
  - intros Hob Hoi Hk4. subst xor. unfold CellMask.xor_offsets.
    rewrite Hob, Hoi, Hk4. split; reflexivity.
Qed.

Lemma C2_xor_and_lut_count_witness :
  CellMask.xor_offsets base_example inv_example = [1; 9] /\
  CellMask.activated_luts (CellMask.xor_offsets base_example inv_example) 4 = Ok 1.
Proof.
  assert (Hlen : len (CellMask.xor_offsets base_example inv_example) < 2 ^ 53)
    by reflexivity.
  assert (Hk : 0 <= vp_K (ps_verilog_parameters (ps_example 0)) <= 1074)
    by (simpl; lia).
  destruct (C2_xor_and_lut_count fuzzer_example (ps_example 0) (ps_example 1)
              base_example inv_example world0 eq_refl eq_refl Hlen Hk)
    as (_ & _ & _ & Hex).
  apply Hex; reflexivity.
Defined.

(** C1 at a failing input: the result of index 1 is unsuccessful, yet
    the analysis is not aborted. The offsets of the successful result
    are written out as the LUT bits, and they are handed to the results
    store. *)
Theorem C1_unsuccessful_result_is_analyzed :
  success inv_failed = false /\
  CellMask._analyze_results fuzzer_failed [ps_example 0; ps_example 1] world0 =
  (Ok tt,
   after [LogInfo "→ 3 differing configuration bits found";
          LogInfo "→ affects 1 LUTs (K=4)";
          WriteText "fz/output/lut_config_bits_20240101_120000.off"
            ("1" +:+ nl +:+ "2" +:+ nl +:+ "5");
          LogInfo "Offset list written → fz/output/lut_config_bits_20240101_120000.off";
          SaveResultsToDb
            (fun res => Ok (CellMask._extra "fz/output/lut_config_bits_20240101_120000.off"
                              [1; 2; 5] 1 res))
            [ps_example 0; ps_example 1]] world0).
Proof.
  split; [reflexivity |].
  rewrite (analyze_goes_through fuzzer_failed (ps_example 0) (ps_example 1)
             base_example inv_failed 1 world0 eq_refl eq_refl eq_refl).
  reflexivity.
Qed.

(** ** The Chain Statistics Analyzer *)

Section ChainStatistics.

Variables (fz : fuzzer) (p : param_set) (rest : list param_set).

Lemma group_result_Some (r : row) :
  group_result fz p = Some r ->
  r ∈ results fz /\ success r = true /\ params r = ps_verilog_parameters p.
Proof.
  intros H. apply List.find_some in H as [Hin Hb].
  apply andb_true_iff in Hb as [Hs Hp]. apply bool_decide_eq_true in Hp.
  split; [now apply list_elem_of_In | auto].
Qed.

Lemma group_result_None :
  (forall r, r ∈ results fz -> success r = true -> params r <> ps_verilog_parameters p) ->
  group_result fz p = None.
Proof.
  intros Hno. destruct (group_result fz p) as [r|] eqn:H; [| reflexivity].
  apply group_result_Some in H as (Hin & Hs & Hp). now destruct (Hno r Hin Hs).
Qed.

Lemma analyze_skips (w : world) :
  group_result fz p = None ->
  RandAll.analyze_results fz (p :: rest) w =
  (Ok tt, after [Print "[ANALYSIS] Skipped – no successful result for this group."] w).
Proof.
  intros H. unfold RandAll.analyze_results. rewrite bind_lift_ok.
  fold (group_result fz p). now rewrite H.
Qed.

Lemma analyze_saves (result : row) (q : spec_float) (w : world) :
  group_result fz p = Some result ->
  truediv (len (offsets result)) (vp_N (ps_verilog_parameters p)) = Ok q ->
  RandAll.analyze_results fz (p :: rest) w =
  (Ok tt,
   after [Print (nl +:+ "Random‑All LUT‑Chain analysis");
          Print ("  Chain length      : "
                 +:+ str_of_int (vp_N (ps_verilog_parameters p)) +:+ " LUTs");
          Print ("  Config bits found : " +:+ str_of_int (len (offsets result)));
          Print ("  Avg. bits per LUT : " +:+ format_2f q);
          SaveResultsToDb
            (RandAll.extra_cols (vp_N (ps_verilog_parameters p)) (len (offsets result))
               (len (static_init_values fz)))
            (p :: rest)] w).
Proof.
  intros H Hq. unfold RandAll.analyze_results. rewrite bind_lift_ok.
  fold (group_result fz p). rewrite H. unfold print, save_results_to_db.
  rewrite !bind_emit, Hq, bind_lift_ok, bind_emit, emit_run.
  rewrite !after_after. reflexivity.
Qed.

Lemma analyze_raises (result : row) (e : exn) (w : world) :
  group_result fz p = Some result ->
  truediv (len (offsets result)) (vp_N (ps_verilog_parameters p)) = Raise e ->
  RandAll.analyze_results fz (p :: rest) w =
  (Raise e,
   after [Print (nl +:+ "Random‑All LUT‑Chain analysis");
          Print ("  Chain length      : "
                 +:+ str_of_int (vp_N (ps_verilog_parameters p)) +:+ " LUTs");
          Print ("  Config bits found : " +:+ str_of_int (len (offsets result)))] w).
Proof.
  intros H Hq. unfold RandAll.analyze_results. rewrite bind_lift_ok.
  fold (group_result fz p). rewrite H. unfold print.
  rewrite !bind_emit, Hq, bind_lift_raise.
  rewrite !after_after. reflexivity.
Qed.

End ChainStatistics.

(** C8: the Chain Statistics Analyzer hands statistics to the results
    store only when the results hold a successful row built from the
    parameters of the group. When there is none it prints that the
    analysis is skipped and returns at once: this is the only event, so
    that no statistics are produced and no row is stored. *)
Theorem C8_chain_stats_need_success (fz : fuzzer) (p : param_set)
    (rest : list param_set) (w : world) :
  ((forall r, r ∈ results fz -> success r = true ->
              params r <> ps_verilog_parameters p) ->
   RandAll.analyze_results fz (p :: rest) w =
   (Ok tt, after [Print "[ANALYSIS] Skipped – no successful result for this group."] w)) /\
  (exists evs,
     snd (RandAll.analyze_results fz (p :: rest) w) = after evs w /\
     ((exists extra_cols dynamic_params, SaveResultsToDb extra_cols dynamic_params ∈ evs) ->
      exists r, r ∈ results fz /\ success r = true /\
                params r = ps_verilog_parameters p)).
Proof.
  split.
  - intros Hno. apply analyze_skips. now apply group_result_None.
  - destruct (group_result fz p) as [result|] eqn:Hg.
    + destruct (truediv (len (offsets result)) (vp_N (ps_verilog_parameters p)))
        as [q|e] eqn:Hq.
      * rewrite (analyze_saves fz p rest result q w Hg Hq). eexists.
        split; [reflexivity |]. intros _. exists result. now apply group_result_Some.
      * rewrite (analyze_raises fz p rest result e w Hg Hq). eexists.
        split; [reflexivity |]. intros _. exists result. now apply group_result_Some.
    + rewrite (analyze_skips fz p rest w Hg). eexists. split; [reflexivity |].
      intros (f & d & Hin). apply list_elem_of_singleton in Hin. discriminate Hin.
Qed.

Lemma C8_chain_stats_need_success_witness :
  RandAll.analyze_results chain_fuzzer_failed [chain_ps_example] world0 =
  (Ok tt, after [Print "[ANALYSIS] Skipped – no successful result for this group."] world0).
Proof.
  apply (C8_chain_stats_need_success chain_fuzzer_failed chain_ps_example [] world0).
  intros r Hr Hs. apply list_elem_of_singleton in Hr. subst r. discriminate Hs.
Defined.




(** * Further properties of the two scripts *)

(** ** Characters of the strings the scripts build *)

Section Characters.

Lemma occurs_append (c : ascii) (s t : string) :
  occurs c (s +:+ t) = occurs c s || occurs c t.
Proof.
  induction s as [|a s IH]; [reflexivity |].
  rewrite append_cons. simpl. now rewrite IH, orb_assoc.
Qed.

Lemma occurs_without (c : ascii) (s : string) : occurs c (without c s) = false.
Proof.
  induction s as [|a s IH]; simpl; [reflexivity |].
  destruct (Ascii.eqb a c) eqn:E; [exact IH |]. simpl. now rewrite E.
Qed.

Lemma occurs_without_other (c d : ascii) (s : string) :
  occurs d s = false -> occurs d (without c s) = false.
Proof.
  induction s as [|a s IH]; simpl; [trivial |]. intros H.
  apply orb_false_iff in H as [Ha Hs].
  destruct (Ascii.eqb a c); [auto |]. simpl. now rewrite Ha, IH.
Qed.

Lemma without_absent (c : ascii) (s : string) : occurs c s = false -> without c s = s.
Proof.
  induction s as [|a s IH]; simpl; [trivial |]. intros H.
  apply orb_false_iff in H as [Ha Hs]. now rewrite Ha, IH.
Qed.

(** The last piece of a split holds no separator. *)
Lemma last_split_clean (c : ascii) (s piece : string) :
  last (split c s) = Some piece -> occurs c piece = false.
Proof.
  revert piece. induction s as [|a s IH]; intros piece; simpl.
  - intros H. injection H as <-. reflexivity.
  - pose proof (split_nonempty c s) as Hne.
    destruct (Ascii.eqb a c) eqn:E.
    + rewrite last_cons_nonempty by assumption. apply IH.
    + destruct (split c s) as [|p [|p' ps]]; [contradiction | |].
      * simpl. intros H. injection H as <-. simpl. rewrite E. simpl.
        now apply IH.
      * intros H. now apply IH.
Qed.

Lemma digit_value_pretty_N_char (d : N) : digit_value (pretty_N_char d) <> None.
Proof. unfold pretty_N_char. repeat case_match; discriminate. Qed.

Lemma occurs_pretty_N_go (c : ascii) (x : N) (s : string) :
  digit_value c = None -> occurs c s = false -> occurs c (pretty_N_go x s) = false.
Proof.
  intros Hc. revert s. induction (N.lt_wf_0 x) as [x _ IH]. intros s Hs.
  destruct (N.eq_dec x 0%N) as [->|Hx]; [now rewrite pretty_N_go_0 |].
  rewrite pretty_N_go_step by lia.
  apply IH; [apply N.div_lt; lia |]. cbn [occurs]. rewrite Hs, orb_false_r.
  apply Ascii.eqb_neq. intros Heq.
  apply (digit_value_pretty_N_char (x `mod` 10)%N). now rewrite Heq.
Qed.

(** A decimal rendering holds digits and, in front, a minus sign at
    most. *)
Lemma occurs_str_of_int (c : ascii) (z : Z) :
  digit_value c = None -> c <> "-"%char -> occurs c (str_of_int z) = false.
Proof.
  intros Hc Hdash. unfold str_of_int, pretty, pretty_Z.
  assert (Hpos : forall p : positive, occurs c (pretty p) = false).
  { intros p. unfold pretty, pretty_positive, pretty, pretty_N.
    case_decide; [discriminate |]. now apply occurs_pretty_N_go. }
  destruct z as [|p|p].
  - cbn [occurs]. rewrite orb_false_r. apply Ascii.eqb_neq. intros <-. discriminate Hc.
  - apply Hpos.
  - rewrite occurs_append, Hpos. cbn [occurs]. rewrite !orb_false_r.
    apply Ascii.eqb_neq. congruence.
Qed.

Lemma pretty_N_go_nonempty (x : N) (s : string) :
  s <> EmptyString -> pretty_N_go x s <> EmptyString.
Proof.
  revert s. induction (N.lt_wf_0 x) as [x _ IH]. intros s Hs.
  destruct (N.eq_dec x 0%N) as [->|Hx]; [now rewrite pretty_N_go_0 |].
  rewrite pretty_N_go_step by lia. apply IH; [apply N.div_lt; lia | discriminate].
Qed.

Lemma str_of_int_nonempty (z : Z) : str_of_int z <> EmptyString.
Proof.
  unfold str_of_int, pretty, pretty_Z.
  assert (Hpos : forall p : positive, pretty p <> EmptyString).
  { intros p. unfold pretty, pretty_positive, pretty, pretty_N.
    case_decide; [discriminate |].
    rewrite pretty_N_go_step by lia. apply pretty_N_go_nonempty. discriminate. }
  destruct z as [|p|p]; [discriminate | apply Hpos | discriminate].
Qed.

End Characters.

(** ** What the emitted bit list keeps *)

Section Emission.

Variable c : ascii.

Lemma join_sep_cons (x y : string) (l : list string) :
  join (String c EmptyString) (x :: y :: l) =
  x +:+ String c (join (String c EmptyString) (y :: l)).
Proof. unfold join. cbn [String.concat]. now rewrite append_cons, append_nil. Qed.

Lemma join_single (x : string) : join (String c EmptyString) [x] = x.
Proof. reflexivity. Qed.

Lemma append_sep_nonempty (x r : string) : x +:+ String c r <> EmptyString.
Proof. destruct x; [rewrite append_nil | rewrite append_cons]; discriminate. Qed.

Lemma occurs_append_sep (x r : string) : occurs c (x +:+ String c r) = true.
Proof.
  rewrite occurs_append. cbn [occurs]. rewrite Ascii.eqb_refl. simpl.
  apply orb_true_r.
Qed.

(** Joining with a separator loses nothing, as long as no element is
    empty or holds the separator. *)
Lemma join_inj (xs ys : list string) :
  Forall (fun x => x <> EmptyString /\ occurs c x = false) xs ->
  Forall (fun y => y <> EmptyString /\ occurs c y = false) ys ->
  join (String c EmptyString) xs = join (String c EmptyString) ys -> xs = ys.
Proof.
  intros Hxs. revert ys. induction Hxs as [|x xs [Hx Hcx] Hxs IH]; intros ys Hys Heq.
  - destruct Hys as [|y ys [Hy Hcy] Hys]; [reflexivity |].
    destruct ys as [|y2 ys]; [rewrite join_single in Heq | rewrite join_sep_cons in Heq].
    + now destruct Hy.
    + symmetry in Heq. now apply append_sep_nonempty in Heq.
  - destruct Hys as [|y ys [Hy Hcy] Hys].
    + destruct xs as [|x2 xs]; [rewrite join_single in Heq | rewrite join_sep_cons in Heq].
      * now destruct Hx.
      * now apply append_sep_nonempty in Heq.
    + destruct xs as [|x2 xs], ys as [|y2 ys];
        rewrite ?join_single, ?join_sep_cons in Heq.
      * now subst.
      * rewrite Heq, occurs_append_sep in Hcx. discriminate.
      * rewrite <- Heq, occurs_append_sep in Hcy. discriminate.
      * assert (Hsplit : Some (x, join (String c EmptyString) (x2 :: xs)) =
                         Some (y, join (String c EmptyString) (y2 :: ys))).
        { rewrite <- (split_first_app c x _ Hcx), <- (split_first_app c y _ Hcy).
          now rewrite Heq. }
        injection Hsplit as -> Hrest. f_equal. now apply IH.
Qed.

Lemma map_str_of_int_inj (xs ys : list Z) :
  map str_of_int xs = map str_of_int ys -> xs = ys.
Proof.
  revert ys. induction xs as [|x xs IH]; intros [|y ys] H; try discriminate; [reflexivity |].
  simpl in H. injection H as Hx Hrest.
  apply (inj pretty) in Hx. subst. f_equal. now apply IH.
Qed.

Lemma join_str_of_int_inj (xs ys : list Z) :
  digit_value c = None -> c <> "-"%char ->
  join (String c EmptyString) (map str_of_int xs) =
  join (String c EmptyString) (map str_of_int ys) ->
  xs = ys.
Proof.
  intros Hc Hdash Heq. apply map_str_of_int_inj. apply join_inj; [| | exact Heq].
  all: apply Forall_forall; intros s Hs; apply list_elem_of_In, in_map_iff in Hs as (z & <- & _).
  all: split; [apply str_of_int_nonempty | now apply occurs_str_of_int].
Qed.

End Emission.

(** X1: the emitted bit list is lossless. Two bit lists with the same
    artifact content (one decimal offset per line) are the same list,
    and so are two bit lists whose rows carry the same
    [lut_config_bits] column. *)
Theorem emitted_bits_determine_xor (xor xor' : list Z) :
  (join nl (map str_of_int xor) = join nl (map str_of_int xor') -> xor = xor') /\
  (forall off_path off_path' activated activated' res res',
     CellMask._extra off_path xor activated res !! "lut_config_bits" =
     CellMask._extra off_path' xor' activated' res' !! "lut_config_bits" ->
     xor = xor').
Proof.
  split.
  - apply join_str_of_int_inj; [reflexivity | discriminate].
  - intros off_path off_path' activated activated' res res' H.
    rewrite !extra_other_columns in H by discriminate.
    rewrite !lookup_insert_ne in H by discriminate.
    rewrite !lookup_insert_eq in H. injection H as H.
    revert H. apply join_str_of_int_inj; [reflexivity | discriminate].
Qed.

Lemma emitted_bits_determine_xor_witness : [1; 9] = [1; 9].
Proof. apply (proj1 (emitted_bits_determine_xor [1; 9] [1; 9])). reflexivity. Defined.

(** ** More on the pattern encoders *)

Section EncodersMore.

Lemma plain_bits_unfold (pattern : string) (k : Z) :
  exists piece,
    last (split "b" pattern) = Some piece /\
    occurs "b" piece = false /\
    RandAll._plain_bits pattern k =
    (lut_bits ← lshift 1 k;
     if bool_decide (len_str (without "_" piece) ≠ lut_bits) then
       Raise (ValueError ("Pattern '" +:+ pattern +:+ "' has "
                          +:+ str_of_int (len_str (without "_" piece))
                          +:+ " bits; expected " +:+ str_of_int lut_bits
                          +:+ " for K=" +:+ str_of_int k))
     else Ok (without "_" piece)).
Proof.
  pose proof (split_nonempty "b" pattern) as Hne.
  destruct (last (split "b" pattern)) as [piece|] eqn:Hl.
  - exists piece. split; [reflexivity |]. split; [now apply (last_split_clean _ pattern) |].
    unfold RandAll._plain_bits, index_last. rewrite Hl. simpl.
    now rewrite replace_empty.
  - apply last_None in Hl. contradiction.
Qed.

(** What the rand-all encoder returns holds neither underscore nor
    separator. *)
Lemma plain_bits_clean (pattern bits : string) (k : Z) :
  RandAll._plain_bits pattern k = Ok bits ->
  occurs "_" bits = false /\ occurs "b" bits = false.
Proof.
  destruct (plain_bits_unfold pattern k) as (piece & _ & Hb & ->).
  destruct (lshift 1 k) as [lut_bits|e]; simpl; [| discriminate].
  case_bool_decide; [discriminate |]. intros Heq. injection Heq as <-.
  split; [apply occurs_without | now apply occurs_without_other].
Qed.

Lemma plain_bits_of_bits (bits : string) (k : Z) :
  0 <= k ->
  occurs "_" bits = false -> occurs "b" bits = false ->
  len_str bits = 2 ^ k ->
  RandAll._plain_bits bits k = Ok bits.
Proof.
  intros Hk Hu Hb Hlen. unfold RandAll._plain_bits, index_last.
  rewrite (split_absent _ _ Hb). simpl.
  rewrite replace_empty, (without_absent _ _ Hu), (lshift_nonneg _ Hk). simpl.
  now rewrite bool_decide_eq_false_2 by (intros H; now apply H).
Qed.

End EncodersMore.

(** X2: the rand-all encoder is idempotent. The bits it returns hold
    no underscore and no [b], their number is [2^k], and encoding them
    again returns them unchanged. *)
Theorem plain_bits_idempotent (pattern bits : string) (k : Z) :
  RandAll._plain_bits pattern k = Ok bits ->
  occurs "_" bits = false /\
  occurs "b" bits = false /\
  len_str bits = 2 ^ k /\
  RandAll._plain_bits bits k = Ok bits.
Proof.
  intros H. destruct (plain_bits_clean _ _ _ H) as [Hu Hb].
  destruct (plain_bits_length _ _ _ H) as [Hk Hlen].
  assert (Hl : len_str bits = 2 ^ k).
  { unfold len_str. rewrite Hlen. apply Z2Nat.id. apply Z.pow_nonneg. lia. }
  split; [exact Hu |]. split; [exact Hb |]. split; [exact Hl |].
  now apply plain_bits_of_bits.
Qed.

Lemma plain_bits_idempotent_witness :
  occurs "_" "0001011001101000" = false /\
  occurs "b" "0001011001101000" = false /\
  len_str "0001011001101000" = 2 ^ 4 /\
  RandAll._plain_bits "0001011001101000" 4 = Ok "0001011001101000".
Proof.
  apply (plain_bits_idempotent "16'b0001_0110_0110_1000" "0001011001101000" 4).
  reflexivity.
Defined.

Section Replication.

Lemma split_first_absent (c : ascii) (s : string) :
  occurs c s = false -> split_first c s = None.
Proof.
  induction s as [|a s IH]; simpl; [trivial |]. intros H.
  apply orb_false_iff in H as [Ha Hs]. now rewrite Ha, IH.
Qed.

(** The cell-mask encoder takes what follows the first [b] for the
    bits. *)
Lemma generate_init_values_unfold (n k : Z) (pattern : string) :
  CellMask._generate_init_values n k pattern =
  (lut_bits ← lshift 1 k;
   if bool_decide (len_str (without "_" (after_first_b pattern)) ≠ lut_bits) then
     Raise (ValueError ("INIT pattern has "
                        +:+ str_of_int (len_str (without "_" (after_first_b pattern)))
                        +:+ " bits; " +:+ str_of_int lut_bits
                        +:+ " required for K=" +:+ str_of_int k))
   else
     Ok (str_of_int (len_str (str_mul (without "_" (after_first_b pattern)) n)) +:+ "'b"
         +:+ str_mul (without "_" (after_first_b pattern)) n)).
Proof.
  unfold CellMask._generate_init_values, partition, after_first_b.
  destruct (split_first "b" pattern) as [[before after]|]; now rewrite replace_empty.
Qed.

Lemma length_repeat_str (s : string) (n : nat) :
  String.length (repeat_str s n) = (n * String.length s)%nat.
Proof.
  induction n as [|n IH]; simpl; [reflexivity |].
  now rewrite length_append, IH.
Qed.

Lemma len_str_mul (s : string) (n : Z) :
  len_str (str_mul s n) = Z.max 0 n * len_str s.
Proof. unfold len_str, str_mul. rewrite length_repeat_str. lia. Qed.

Lemma substring_repeat_str (s : string) (n i : nat) :
  (i < n)%nat ->
  String.substring (i * String.length s) (String.length s) (repeat_str s n) = s.
Proof.
  revert i. induction n as [|n IH]; intros i Hi; [lia |].
  cbn [repeat_str]. destruct i as [|i].
  - simpl Nat.mul. apply substring_prefix.
  - replace (S i * String.length s)%nat with (String.length s + i * String.length s)%nat
      by lia.
    rewrite substring_skip. apply IH. lia.
Qed.

Lemma str_mul_1 (s : string) : str_mul s 1 = s.
Proof. unfold str_mul. simpl. apply append_empty_r. Qed.

Lemma pow2_pos (k : Z) : 0 <= k -> 0 < 2 ^ k.
Proof. intros Hk. apply Z.pow_pos_nonneg; lia. Qed.

End Replication.

(** X3: replication. For a literal [prefix b body] whose body holds
    [2^k] bits once the underscores are gone, the cell-mask encoder
    returns a literal whose declared width is [n * 2^k], whose body has
    that many characters, and in which each of the [n] slices of [2^k]
    characters is the pattern itself; for [n <= 0] it is the literal
    [0'b]. *)
Theorem generate_init_values_replicates (prefix body : string) (n k : Z) :
  0 <= k ->
  occurs "b" prefix = false ->
  len_str (without "_" body) = 2 ^ k ->
  let bits := without "_" body in
  CellMask._generate_init_values n k (prefix +:+ "b" +:+ body) =
    Ok (str_of_int (Z.max 0 n * 2 ^ k) +:+ "'b" +:+ str_mul bits n) /\
  len_str (str_mul bits n) = Z.max 0 n * 2 ^ k /\
  (forall i : nat, (i < Z.to_nat n)%nat ->
     String.substring (i * Z.to_nat (2 ^ k)) (Z.to_nat (2 ^ k)) (str_mul bits n) = bits) /\
  (n <= 0 -> CellMask._generate_init_values n k (prefix +:+ "b" +:+ body) = Ok "0'b").
Proof.
  intros Hk Hp Hlen bits. subst bits.
  assert (Hgen : CellMask._generate_init_values n k (prefix +:+ "b" +:+ body) =
                 Ok (str_of_int (Z.max 0 n * 2 ^ k) +:+ "'b"
                     +:+ str_mul (without "_" body) n)).
  { change ("b" +:+ body) with (String "b" body).
    rewrite (generate_init_values_app _ _ _ _ Hp), (lshift_nonneg _ Hk). simpl.
    rewrite bool_decide_eq_false_2 by (intros H; now apply H).
    now rewrite len_str_mul, Hlen. }
  assert (Hwidth : String.length (without "_" body) = Z.to_nat (2 ^ k))
    by (unfold len_str in Hlen; lia).
  split; [exact Hgen |]. split; [| split].
  - now rewrite len_str_mul, Hlen.
  - intros i Hi. rewrite <- Hwidth. now apply substring_repeat_str.
  - intros Hn. rewrite Hgen. replace (Z.max 0 n) with 0 by lia.
    unfold str_mul. replace (Z.to_nat n) with 0%nat by lia. reflexivity.
Qed.

Lemma generate_init_values_replicates_witness :
  CellMask._generate_init_values 3 4 "16'b0001_0110_0110_1000" =
    Ok "48'b000101100110100000010110011010000001011001101000" /\
  String.substring 32 16 "000101100110100000010110011010000001011001101000" =
    "0001011001101000".
Proof.
  destruct (generate_init_values_replicates "16'" "0001_0110_0110_1000" 3 4
              ltac:(lia) eq_refl eq_refl) as (Hgen & _ & Hslice & _).
  split; [exact Hgen | apply (Hslice 2%nat); simpl; lia].
Defined.

(** X4: the literal the cell-mask encoder returns for one LUT is in
    canonical form. Encoding it again returns it unchanged, and
    replicating it [n] times gives what replicating the pattern it came
    from gives. *)
Theorem generate_init_values_canonical (n k : Z) (pattern literal : string) :
  CellMask._generate_init_values 1 k pattern = Ok literal ->
  CellMask._generate_init_values 1 k literal = Ok literal /\
  CellMask._generate_init_values n k literal = CellMask._generate_init_values n k pattern.
Proof.
  intros H. rewrite (generate_init_values_unfold 1 k pattern) in H.
  rewrite (generate_init_values_unfold n k pattern).
  set (lit := after_first_b pattern) in *.
  destruct (lshift_cases 1 k) as [[Hk Hs]|[Hk Hs]]; rewrite Hs in H |- *;
    simpl in H |- *; [| discriminate].
  case_bool_decide as Hlen; [discriminate |]. injection H as <-.
  rewrite str_mul_1.
  set (bits := without "_" lit) in *.
  assert (Hp : occurs "b" (str_of_int (len_str bits) +:+ "'") = false).
  { rewrite occurs_append, occurs_str_of_int by (reflexivity || discriminate). reflexivity. }
  assert (Hbits : without "_" bits = bits) by (apply without_absent, occurs_without).
  assert (Hform : forall m,
            CellMask._generate_init_values m k
              (str_of_int (len_str bits) +:+ "'b" +:+ bits) =
            Ok (str_of_int (len_str (str_mul bits m)) +:+ "'b" +:+ str_mul bits m)).
  { intros m.
    replace (str_of_int (len_str bits) +:+ "'b" +:+ bits)
      with ((str_of_int (len_str bits) +:+ "'") +:+ String "b" bits)
      by (now rewrite append_assoc).
    rewrite (generate_init_values_app _ _ _ _ Hp), Hs. simpl.
    rewrite Hbits. now rewrite bool_decide_eq_false_2 by (intros Hne; now apply Hne). }
  split; [| apply Hform].
  rewrite Hform. now rewrite str_mul_1.
Qed.

Lemma generate_init_values_canonical_witness :
  CellMask._generate_init_values 1 4 "16'b0001011001101000" = Ok "16'b0001011001101000" /\
  CellMask._generate_init_values 3 4 "16'b0001011001101000" =
    CellMask._generate_init_values 3 4 "16'b0001_0110_0110_1000".
Proof.
  apply (generate_init_values_canonical 3 4 "16'b0001_0110_0110_1000" "16'b0001011001101000").
  reflexivity.
Defined.

(** X5: a pattern without any [b]. The cell-mask encoder rejects it
    whatever it holds and whatever [n] and [k] are; the rand-all
    encoder takes the whole pattern for the bits and accepts it exactly
    when its bits, underscores apart, are [2^k] in number. *)
Theorem encoders_without_separator (n k : Z) (pattern : string) :
  occurs "b" pattern = false ->
  raises_ValueError (CellMask._generate_init_values n k pattern) /\
  (forall bits,
     RandAll._plain_bits pattern k = Ok bits <->
     0 <= k /\ bits = without "_" pattern /\ len_str (without "_" pattern) = 2 ^ k).
Proof.
  intros Hb. split.
  - rewrite (generate_init_values_unfold n k pattern).
    unfold after_first_b. rewrite (split_first_absent _ _ Hb).
    destruct (lshift_cases 1 k) as [[Hk ->]|[Hk ->]]; simpl.
    + rewrite Z.shiftl_1_l.
      rewrite bool_decide_eq_true_2; [eexists; reflexivity |].
      change (len_str EmptyString) with 0. pose proof (pow2_pos k Hk). lia.
    + eexists. reflexivity.
  - intros bits. unfold RandAll._plain_bits, index_last.
    rewrite (split_absent _ _ Hb). simpl. rewrite replace_empty.
    destruct (lshift_cases 1 k) as [[Hk ->]|[Hk ->]]; simpl.
    + rewrite Z.shiftl_1_l. case_bool_decide as Hlen; split.
      * discriminate.
      * intros (_ & _ & Hl). contradiction.
      * intros H. injection H as <-. split; [assumption |]. split; [reflexivity | lia].
      * intros (_ & -> & _). reflexivity.
    + split; [discriminate | lia].
Qed.

Lemma encoders_without_separator_witness :
  raises_ValueError (CellMask._generate_init_values 1 2 "0001") /\
  RandAll._plain_bits "0001" 2 = Ok "0001".
Proof.
  destruct (encoders_without_separator 1 2 "0001" eq_refl) as [Hcell Hrand].
  split; [exact Hcell |].
  apply Hrand. split; [lia |]. split; reflexivity.
Defined.

(** ** More on the random-chain designer *)

Section DesignerMore.

Lemma join_nil : join "" [] = EmptyString.
Proof. reflexivity. Qed.

Lemma join_app (l1 l2 : list string) :
  join "" (l1 ++ l2) = join "" l1 +:+ join "" l2.
Proof.
  induction l1 as [|x l1 IH]; [reflexivity |].
  change ((x :: l1) ++ l2)%list with (x :: (l1 ++ l2))%list.
  now rewrite !join_cons, IH, append_assoc.
Qed.

Lemma length_join_uniform (width : nat) (l : list string) :
  Forall (fun y => String.length y = width) l ->
  String.length (join "" l) = (length l * width)%nat.
Proof.
  induction 1 as [|y l Hy _ IH]; [reflexivity |].
  rewrite join_cons, length_append, IH, Hy. simpl. lia.
Qed.

Lemma Forall2_encodes (k : Z) (statics static_bits : list string) :
  Forall2 (fun pat bits => RandAll._plain_bits pat k = Ok bits) statics static_bits ->
  Forall (encodes k) statics.
Proof. induction 1 as [|pat bits ps bs Hb _ IH]; constructor; [now exists bits | exact IH]. Qed.

Lemma encodes_Forall2 (k : Z) (statics : list string) :
  Forall (encodes k) statics ->
  exists static_bits,
    Forall2 (fun pat bits => RandAll._plain_bits pat k = Ok bits) statics static_bits.
Proof.
  induction 1 as [|pat ps [bits Hb] _ [bs IH]].
  - exists []. constructor.
  - exists (bits :: bs). now constructor.
Qed.

End DesignerMore.

(** A design that cannot be built is rejected before any draw. *)
Lemma build_flat_init_literal_rejects (n k : Z) (statics : list string) (w : world) :
  ~ (0 <= k /\ len statics <= n /\ Forall (encodes k) statics) ->
  exists msg,
    RandAll._build_flat_init_literal n k statics w = (Raise (ValueError msg), w).
Proof.
  intros Hno.
  assert (Hraise : exists msg, RandAll.chain_bits n k statics w = (Raise (ValueError msg), w)).
  { unfold RandAll.chain_bits.
    destruct (lshift_cases 1 k) as [[Hk ->]|[Hk ->]].
    - rewrite bind_lift_ok.
      destruct (comprehension_plain_bits k statics) as [(bs & Hc & HF)|[msg Hc]];
        rewrite Hc.
      + rewrite bind_lift_ok. case_bool_decide as Hlen; [eexists; reflexivity |].
        destruct Hno. split; [assumption |]. split.
        * apply Forall2_length in HF. unfold len in *. lia.
        * now apply (Forall2_encodes k statics bs).
      + rewrite bind_lift_raise. now exists msg.
    - rewrite bind_lift_raise. eexists. reflexivity. }
  destruct Hraise as [msg H]. exists msg. now apply build_of_chain_raise.
Qed.

(** X6: when the design of a chain succeeds and when it fails. It
    succeeds, after [(n - len(statics)) * 2^k] draws of the random
    source, exactly when [k] is not negative, every static pattern
    encodes and there are at most [n] of them; otherwise it raises a
    [ValueError] without a single draw. *)
Theorem build_flat_init_literal_outcome (n k : Z) (statics : list string) (w : world) :
  (0 <= k /\ len statics <= n /\ Forall (encodes k) statics ->
   exists literal,
     RandAll._build_flat_init_literal n k statics w =
     (Ok literal, advance (Z.to_nat (n - len statics) * Z.to_nat (2 ^ k)) w)) /\
  (~ (0 <= k /\ len statics <= n /\ Forall (encodes k) statics) ->
   exists msg,
     RandAll._build_flat_init_literal n k statics w = (Raise (ValueError msg), w)).
Proof.
  split; [| apply build_flat_init_literal_rejects].
  intros (Hk & Hlen & Henc). destruct (encodes_Forall2 _ _ Henc) as [static_bits HF].
  eexists. apply build_of_chain. now apply (chain_bits_fits n k statics static_bits).
Qed.

Lemma build_flat_init_literal_outcome_witness :
  (exists literal,
     RandAll._build_flat_init_literal 3 2 ["4'b0001"] world0 =
     (Ok literal, advance 8 world0)) /\
  (exists msg,
     RandAll._build_flat_init_literal 3 2 ["5'b00011"] world0 =
     (Raise (ValueError msg), world0)).
Proof.
  split.
  - apply (build_flat_init_literal_outcome 3 2 ["4'b0001"] world0).
    split; [lia |]. split; [unfold len; simpl; lia |].
    constructor; [| constructor]. exists "0001". reflexivity.
  - apply (build_flat_init_literal_outcome 3 2 ["5'b00011"] world0).
    intros (_ & _ & Henc). apply Forall_cons in Henc as [[bits Hb] _].
    vm_compute in Hb. discriminate Hb.
Defined.

(** X7: where the static patterns go. In the flat literal of a chain
    the declared width is [n * 2^k]; the bits of the random patterns
    lead and the bits of the static patterns, last pattern first, close
    the literal, so that the static LUTs keep the same low-order slices
    whatever is drawn. *)
Theorem build_flat_init_literal_layout (n k : Z) (statics static_bits : list string)
    (w : world) :
  0 <= k ->
  len statics <= n ->
  Forall2 (fun pat bits => RandAll._plain_bits pat k = Ok bits) statics static_bits ->
  let slots := Z.to_nat (n - len statics) in
  let width := Z.to_nat (2 ^ k) in
  let random_part := join "" (reverse (random_chain (coin w) (draws w) width slots)) in
  let static_part := join "" (reverse static_bits) in
  RandAll._build_flat_init_literal n k statics w =
    (Ok (str_of_int (n * 2 ^ k) +:+ "'b" +:+ random_part +:+ static_part),
     advance (slots * width) w) /\
  len_str random_part = (n - len statics) * 2 ^ k /\
  len_str static_part = len statics * 2 ^ k.
Proof.
  intros Hk Hlen HF slots width random_part static_part.
  pose proof (pow2_pos k Hk) as Hpow.
  assert (Hr : len_str random_part = (n - len statics) * 2 ^ k).
  { unfold len_str, random_part.
    rewrite (length_join_uniform width)
      by (apply Forall_reverse, random_chain_width).
    rewrite length_reverse, length_random_chain. unfold slots, width.
    rewrite Nat2Z.inj_mul, !Z2Nat.id by lia. reflexivity. }
  assert (Hs : len_str static_part = len statics * 2 ^ k).
  { unfold len_str, static_part.
    rewrite (length_join_uniform width)
      by (apply Forall_reverse; now apply (static_bits_width k statics)).
    rewrite length_reverse. apply Forall2_length in HF. unfold len, width.
    rewrite Nat2Z.inj_mul, Z2Nat.id, HF by lia. reflexivity. }
  split; [| split; assumption].
  rewrite (build_of_chain _ _ _ _ _ _ (chain_bits_fits n k statics static_bits w Hk Hlen HF)).
  unfold flat_literal. rewrite reverse_app, join_app.
  fold slots width random_part static_part.
  rewrite len_str_append, Hr, Hs.
  replace ((n - len statics) * 2 ^ k + len statics * 2 ^ k) with (n * 2 ^ k) by ring.
  reflexivity.
Qed.

Lemma build_flat_init_literal_layout_witness :
  RandAll._build_flat_init_literal 3 2 ["4'b0001"] world0 =
    (Ok "12'b101010100001", advance 8 world0).
Proof.
  apply (build_flat_init_literal_layout 3 2 ["4'b0001"] ["0001"] world0);
    [lia | unfold len; simpl; lia | repeat constructor].
Defined.

(** ** More on the Diff Analyzer *)

Section DiffAnalyzerMore.

Lemma xor_offsets_nil (base inv : row) :
  CellMask.xor_offsets base inv = [] <->
  list_to_set (offsets base) =@{gset Z} list_to_set (offsets inv).
Proof.
  unfold CellMask.xor_offsets, sorted, symmetric_difference. split.
  - intros H.
    assert (He : elements ((list_to_set (offsets base) ∖ list_to_set (offsets inv))
                           ∪ (list_to_set (offsets inv) ∖ list_to_set (offsets base))
                           : gset Z) = []).
    { apply Permutation_nil_r. rewrite <- H. symmetry. apply merge_sort_Permutation. }
    apply elements_empty_inv in He. apply leibniz_equiv in He.
    apply set_eq. intros x.
    assert (Hx : x ∉ ((list_to_set (offsets base) ∖ list_to_set (offsets inv))
                      ∪ (list_to_set (offsets inv) ∖ list_to_set (offsets base)) : gset Z))
      by (rewrite He; apply not_elem_of_empty).
    rewrite elem_of_union, !elem_of_difference in Hx.
    destruct (decide (x ∈ (list_to_set (offsets base) : gset Z)));
      destruct (decide (x ∈ (list_to_set (offsets inv) : gset Z))); tauto.
  - intros ->.
    rewrite (difference_diag_L (list_to_set (offsets inv) : gset Z)).
    rewrite (union_empty_l_L (∅ : gset Z)). now rewrite elements_empty.
Qed.

Lemma truediv_zero (b : Z) : 0 < b -> truediv 0 b = Ok (S754_zero false).
Proof.
  intros Hb. unfold truediv. destruct (Z.eqb_spec b 0); [lia |].
  destruct b as [|p|p]; try lia. reflexivity.
Qed.

Lemma activated_luts_nil (k : Z) : 0 <= k -> CellMask.activated_luts [] k = Ok 0.
Proof.
  intros Hk. unfold CellMask.activated_luts. rewrite lshift_nonneg by exact Hk. simpl.
  change (len []) with 0. now rewrite truediv_zero by (apply Z.pow_pos_nonneg; lia).
Qed.

(** The search for a row of index [i] stops at the first row that has
    this index or no index at all. *)
Lemma find_param_index_app (i : Z) (pre post : list row) (r : row) :
  Forall (fun x => exists j, param_index x = Some j /\ j <> i) pre ->
  CellMask.find_param_index i (pre ++ r :: post) =
  match param_index r with
  | None => Raise (KeyError "param_index")
  | Some j => if bool_decide (j = i) then Ok (Some r)
              else CellMask.find_param_index i post
  end.
Proof.
  induction 1 as [|x pre (j & Hj & Hne) _ IH]; [reflexivity |].
  change ((x :: pre) ++ r :: post)%list with (x :: (pre ++ r :: post))%list.
  cbn [CellMask.find_param_index]. rewrite Hj.
  now rewrite bool_decide_eq_false_2 by exact Hne.
Qed.

End DiffAnalyzerMore.

(** X8: the bit list does not depend on which result is the base. It
    is the same when the two results are swapped, and it only depends
    on the two sets of offsets, not on the order or on repetitions in
    the lists that hold them. *)
Theorem xor_offsets_symmetric (base inv base' inv' : row) :
  CellMask.xor_offsets base inv = CellMask.xor_offsets inv base /\
  (list_to_set (offsets base) =@{gset Z} list_to_set (offsets base') ->
   list_to_set (offsets inv) =@{gset Z} list_to_set (offsets inv') ->
   CellMask.xor_offsets base inv = CellMask.xor_offsets base' inv').
Proof.
  unfold CellMask.xor_offsets, symmetric_difference. split.
  - f_equal. apply union_comm_L.
  - intros -> ->. reflexivity.
Qed.

Lemma xor_offsets_symmetric_witness :
  CellMask.xor_offsets base_example inv_example =
  CellMask.xor_offsets
    {| param_index := Some 0; success := true; params := vp_example;
       offsets := [5; 1; 2; 2; 1] |} inv_example.
Proof.
  apply (xor_offsets_symmetric base_example inv_example
           {| param_index := Some 0; success := true; params := vp_example;
              offsets := [5; 1; 2; 2; 1] |} inv_example); reflexivity.
Defined.

(** X9: two results with the same offsets. The bit list is empty
    exactly when the two results hold the same set of offsets. The
    analysis is not aborted then: it reports 0 bits and 0 LUTs, writes
    an empty artifact and hands the rows to the results store. *)
Theorem analyze_results_without_difference (fz : fuzzer) (p0 p1 : param_set)
    (base inv : row) (w : world) :
  (CellMask.xor_offsets base inv = [] <->
   list_to_set (offsets base) =@{gset Z} list_to_set (offsets inv)) /\
  (CellMask.find_param_index 0 (results fz) = Ok (Some base) ->
   CellMask.find_param_index 1 (results fz) = Ok (Some inv) ->
   0 <= vp_K (ps_verilog_parameters p0) ->
   list_to_set (offsets base) =@{gset Z} list_to_set (offsets inv) ->
   let off_path := fuzzer_dir fz +:+ "/output/lut_config_bits_" +:+ now w +:+ ".off" in
   CellMask._analyze_results fz [p0; p1] w =
   (Ok tt,
    after [LogInfo "→ 0 differing configuration bits found";
           LogInfo ("→ affects 0 LUTs (K="
                    +:+ str_of_int (vp_K (ps_verilog_parameters p0)) +:+ ")");
           WriteText off_path EmptyString;
           LogInfo ("Offset list written → " +:+ off_path);
           SaveResultsToDb (fun res => Ok (CellMask._extra off_path [] 0 res)) [p0; p1]] w)).
Proof.
  split; [apply xor_offsets_nil |].
  intros Hb Hi Hk Hsame off_path.
  apply xor_offsets_nil in Hsame.
  assert (Hact : CellMask.activated_luts (CellMask.xor_offsets base inv)
                   (vp_K (ps_verilog_parameters p0)) = Ok 0)
    by (rewrite Hsame; now apply activated_luts_nil).
  rewrite (analyze_goes_through fz p0 p1 base inv 0 w Hb Hi Hact).
  rewrite Hsame. reflexivity.
Qed.

Lemma analyze_results_without_difference_witness :
  exists evs,
    CellMask._analyze_results
      {| results := [base_example;
                     {| param_index := Some 1; success := true; params := vp_example;
                        offsets := [5; 2; 1] |}];
         fuzzer_dir := "fz"; static_init_values := [] |}
      [ps_example 0; ps_example 1] world0 = (Ok tt, after evs world0) /\
    evs !! 2%nat = Some (WriteText "fz/output/lut_config_bits_20240101_120000.off" "").
Proof.
  eexists. split.
  - apply (analyze_results_without_difference _ (ps_example 0) (ps_example 1) base_example
             {| param_index := Some 1; success := true; params := vp_example;
                offsets := [5; 2; 1] |} world0); [reflexivity | reflexivity | simpl; lia |].
    vm_compute. reflexivity.
  - reflexivity.
Defined.

(** X10: how many LUTs are reported. In the range where the division
    is exact, the count is at least 1 as soon as one bit differs, is 0
    only for an empty bit list, never exceeds the number of bits, and
    is the number of bits itself for [k = 0]. *)
Theorem activated_luts_bounds (xor : list Z) (k : Z) :
  len xor < 2 ^ 53 -> 0 <= k <= 1074 ->
  exists lut_count,
    CellMask.activated_luts xor k = Ok lut_count /\
    0 <= lut_count <= len xor /\
    (lut_count = 0 <-> xor = []) /\
    (k = 0 -> lut_count = len xor).
Proof.
  intros Hlen Hk. destruct (activated_luts_ceiling xor k Hlen Hk) as (c & Hc & Hlo & Hhi).
  pose proof (pow2_pos k ltac:(lia)) as Hpow.
  assert (Hnn : 0 <= len xor) by (unfold len; lia).
  exists c. split; [exact Hc |]. split; [nia |]. split; [split |].
  - intros ->. destruct xor; [reflexivity |]. unfold len in *. simpl in *. lia.
  - intros ->. change (len []) with 0 in *. nia.
  - intros ->. change (2 ^ 0) with 1 in *. lia.
Qed.

Lemma activated_luts_bounds_witness :
  exists lut_count,
    CellMask.activated_luts [1; 9] 4 = Ok lut_count /\ 0 <= lut_count <= len [1; 9].
Proof.
  destruct (activated_luts_bounds [1; 9] 4) as (c & Hc & Hb & _); [reflexivity | lia |].
  exists c. split; assumption.
Defined.

(** X11: a row without [param_index]. The search for the base row
    reads the rows in order; when it meets a row without the key before
    any row of index 0, the analysis ends in a [KeyError] and nothing
    is logged, written or stored, even if rows of index 0 and 1 follow.
    A row of index 0 met first is taken, whatever follows it. *)
Theorem analyze_results_missing_key (fz : fuzzer) (dyn_params : list param_set)
    (pre post : list row) (r : row) (w : world) :
  results fz = (pre ++ r :: post)%list ->
  Forall (fun x => exists j, param_index x = Some j /\ j <> 0) pre ->
  (param_index r = Some 0 ->
   CellMask.find_param_index 0 (results fz) = Ok (Some r)) /\
  (param_index r = None -> len dyn_params = 2 ->
   CellMask._analyze_results fz dyn_params w = (Raise (KeyError "param_index"), w)).
Proof.
  intros Hres Hpre. split.
  - intros Hr. rewrite Hres, (find_param_index_app 0 pre post r Hpre), Hr. reflexivity.
  - intros Hr Hlen. unfold CellMask._analyze_results.
    rewrite bool_decide_eq_false_2 by (intros H; now apply H).
    rewrite Hres, (find_param_index_app 0 pre post r Hpre), Hr. reflexivity.
Qed.

Lemma analyze_results_missing_key_witness :
  CellMask._analyze_results
    {| results := [inv_example;
                   {| param_index := None; success := true; params := vp_example;
                      offsets := [] |};
                   base_example];
       fuzzer_dir := "fz"; static_init_values := [] |}
    [ps_example 0; ps_example 1] world0 = (Raise (KeyError "param_index"), world0).
Proof.
  apply (analyze_results_missing_key _ [ps_example 0; ps_example 1] [inv_example]
           [base_example]
           {| param_index := None; success := true; params := vp_example; offsets := [] |}
           world0); [reflexivity | | reflexivity | reflexivity].
  constructor; [| constructor]. exists 1. split; [reflexivity | lia].
Defined.

(** ** More on the Chain Statistics Analyzer *)

Section ChainStatisticsMore.

Lemma find_app_first {A} (f : A -> bool) (pre post : list A) (r : A) :
  Forall (fun x => f x = false) pre -> f r = true ->
  List.find f (pre ++ r :: post) = Some r.
Proof.
  intros Hpre Hr. induction Hpre as [|x pre Hx _ IH]; simpl.
  - now rewrite Hr.
  - now rewrite Hx.
Qed.

End ChainStatisticsMore.

(** X12: which row the chain statistics come from. The analyzer reads
    the first parameter set of the group only and takes the first
    successful row built from its parameters: failed rows and rows of
    other parameters in front of it are passed over, and no row behind
    it is read, so that the outcome is the one for this row alone. An
    empty group raises [IndexError] before anything is printed. *)
Theorem analyze_results_first_match (fz : fuzzer) (p : param_set) (rest : list param_set)
    (pre post : list row) (r : row) (w : world) :
  results fz = (pre ++ r :: post)%list ->
  Forall (fun x => success x = false \/ params x <> ps_verilog_parameters p) pre ->
  success r = true ->
  params r = ps_verilog_parameters p ->
  group_result fz p = Some r /\
  RandAll.analyze_results fz (p :: rest) w =
    RandAll.analyze_results
      {| results := [r]; fuzzer_dir := fuzzer_dir fz;
         static_init_values := static_init_values fz |} (p :: rest) w /\
  RandAll.analyze_results fz [] w = (Raise (IndexError "list index out of range"), w).
Proof.
  intros Hres Hpre Hs Hp.
  assert (Hmatch : (success r && bool_decide (params r = ps_verilog_parameters p)) = true)
    by (rewrite Hs; now apply bool_decide_eq_true_2).
  assert (Hg : group_result fz p = Some r).
  { unfold group_result. rewrite Hres. apply find_app_first; [| exact Hmatch].
    eapply Forall_impl; [exact Hpre |]. intros x [Hx|Hx]; simpl.
    - now rewrite Hx.
    - rewrite (bool_decide_eq_false_2 _ Hx). apply andb_false_r. }
  assert (Hg' : group_result {| results := [r]; fuzzer_dir := fuzzer_dir fz;
                                static_init_values := static_init_values fz |} p = Some r).
  { unfold group_result. simpl. now rewrite Hmatch. }
  split; [exact Hg |]. split; [| reflexivity].
  destruct (truediv (len (offsets r)) (vp_N (ps_verilog_parameters p))) as [q|e] eqn:Hq.
  - now rewrite (analyze_saves _ _ _ _ _ _ Hg Hq), (analyze_saves _ _ _ _ _ _ Hg' Hq).
  - now rewrite (analyze_raises _ _ _ _ _ _ Hg Hq), (analyze_raises _ _ _ _ _ _ Hg' Hq).
Qed.

Lemma analyze_results_first_match_witness :
  group_result chain_fuzzer_example chain_ps_example = Some chain_row_example.
Proof.
  apply (analyze_results_first_match chain_fuzzer_example chain_ps_example []
           [chain_row_failed] [] chain_row_example world0);
    [reflexivity | | reflexivity | reflexivity].
  constructor; [left; reflexivity | constructor].
Defined.

(** ** The drivers *)

Section Drivers.

(** The cell-mask encoder returns a literal of the declared width
    [max(0, n) * 2^k] or raises a [ValueError]. *)
Lemma generate_init_values_cases (n k : Z) (pattern : string) :
  (exists flat,
     CellMask._generate_init_values n k pattern =
       Ok (str_of_int (Z.max 0 n * 2 ^ k) +:+ "'b" +:+ flat) /\
     0 <= k /\ len_str flat = Z.max 0 n * 2 ^ k) \/
  raises_ValueError (CellMask._generate_init_values n k pattern).
Proof.
  rewrite (generate_init_values_unfold n k pattern).
  destruct (lshift_cases 1 k) as [[Hk ->]|[Hk ->]]; simpl.
  - rewrite Z.shiftl_1_l. case_bool_decide as Hlen.
    + right. eexists. reflexivity.
    + left. assert (Hl : len_str (without "_" (after_first_b pattern)) = 2 ^ k) by lia.
      eexists. rewrite len_str_mul, Hl. split; [reflexivity |]. split; [assumption |].
      now rewrite len_str_mul, Hl.
  - right. eexists. reflexivity.
Qed.

Lemma pow2_eq_16 (k : Z) : 0 <= k -> (2 ^ k = 16 <-> k = 4).
Proof.
  intros Hk. split; [| now intros ->].
  intros H. change 16 with (2 ^ 4) in H. apply Z.pow_inj_r in H; lia.
Qed.

Lemma cell_mask_main_ok (cfg : config) (base_init inv_init : string) :
  CellMask._generate_init_values (default 64 (cfg_N cfg)) (default 4 (cfg_K cfg))
    (default "16'b0001_0110_0110_1000" (cfg_base_value cfg)) = Ok base_init ->
  CellMask._generate_init_values (default 64 (cfg_N cfg)) (default 4 (cfg_K cfg))
    (default "16'b1110_1001_1001_0111" (cfg_inverted_value cfg)) = Ok inv_init ->
  CellMask.main cfg =
  Ok {| dynamic_params_list :=
          [[build_param_set 0 (2 ^ default 4 (cfg_K cfg) * default 256 (cfg_CHUNK_LUTS cfg))
              ["INIT"] (default 64 (cfg_N cfg)) (default 4 (cfg_K cfg))
              (default 256 (cfg_CHUNK_LUTS cfg)) base_init;
            build_param_set 1 (2 ^ default 4 (cfg_K cfg) * default 256 (cfg_CHUNK_LUTS cfg))
              ["INIT"] (default 64 (cfg_N cfg)) (default 4 (cfg_K cfg))
              (default 256 (cfg_CHUNK_LUTS cfg)) inv_init]];
        cleanup := false;
        num_processes := 2;
        design_name := None |}.
Proof.
  intros Hb Hi.
  destruct (generate_init_values_cases (default 64 (cfg_N cfg)) (default 4 (cfg_K cfg))
              (default "16'b0001_0110_0110_1000" (cfg_base_value cfg)))
    as [(bf & _ & Hk & _)|[msg Hr]]; [| congruence].
  unfold CellMask.main. rewrite (lshift_nonneg _ Hk), Hb, Hi. reflexivity.
Qed.

Lemma cell_mask_main_raises (cfg : config) :
  raises (CellMask._generate_init_values (default 64 (cfg_N cfg)) (default 4 (cfg_K cfg))
            (default "16'b0001_0110_0110_1000" (cfg_base_value cfg))) \/
  raises (CellMask._generate_init_values (default 64 (cfg_N cfg)) (default 4 (cfg_K cfg))
            (default "16'b1110_1001_1001_0111" (cfg_inverted_value cfg))) ->
  raises_ValueError (CellMask.main cfg).
Proof.
  intros Hraise. unfold CellMask.main.
  destruct (lshift_cases 1 (default 4 (cfg_K cfg))) as [[Hk ->]|[Hk ->]]; simpl;
    [| eexists; reflexivity].
  destruct (generate_init_values_cases (default 64 (cfg_N cfg)) (default 4 (cfg_K cfg))
              (default "16'b0001_0110_0110_1000" (cfg_base_value cfg)))
    as [(bf & Hbf & _)|[msg Hm]]; [rewrite Hbf | rewrite Hm; now exists msg]. simpl.
  destruct (generate_init_values_cases (default 64 (cfg_N cfg)) (default 4 (cfg_K cfg))
              (default "16'b1110_1001_1001_0111" (cfg_inverted_value cfg)))
    as [(vf & Hvf & _)|[msg Hm]]; [rewrite Hvf | rewrite Hm; now exists msg]. simpl.
  destruct Hraise as [[e He]|[e He]]; congruence.
Qed.

End Drivers.

(** X13: the experiment of the cell-mask driver. When both patterns
    encode, the driver launches one group of two parameter sets of
    index 0 and 1 with 2 worker processes; the two sets agree on [N],
    [K], [CHUNK_LUTS], the chunk keys and the chunk cap
    [2^K * CHUNK_LUTS], and their two [INIT] literals declare the same
    width [max(0, N) * 2^K] and hold that many bits. When a pattern
    does not encode, the driver raises a [ValueError] and launches
    nothing. *)
Theorem cell_mask_main_outcome (cfg : config) :
  let n := default 64 (cfg_N cfg) in
  let k := default 4 (cfg_K cfg) in
  let chunk_luts := default 256 (cfg_CHUNK_LUTS cfg) in
  let base_pat := default "16'b0001_0110_0110_1000" (cfg_base_value cfg) in
  let inv_pat := default "16'b1110_1001_1001_0111" (cfg_inverted_value cfg) in
  (forall base_init inv_init,
     CellMask._generate_init_values n k base_pat = Ok base_init ->
     CellMask._generate_init_values n k inv_pat = Ok inv_init ->
     exists base_flat inv_flat,
       base_init = str_of_int (Z.max 0 n * 2 ^ k) +:+ "'b" +:+ base_flat /\
       inv_init = str_of_int (Z.max 0 n * 2 ^ k) +:+ "'b" +:+ inv_flat /\
       len_str base_flat = Z.max 0 n * 2 ^ k /\
       len_str inv_flat = Z.max 0 n * 2 ^ k /\
       CellMask.main cfg =
       Ok {| dynamic_params_list :=
               [[build_param_set 0 (2 ^ k * chunk_luts) ["INIT"] n k chunk_luts base_init;
                 build_param_set 1 (2 ^ k * chunk_luts) ["INIT"] n k chunk_luts inv_init]];
             cleanup := false;
             num_processes := 2;
             design_name := None |}) /\
  (raises (CellMask._generate_init_values n k base_pat) \/
   raises (CellMask._generate_init_values n k inv_pat) ->
   raises_ValueError (CellMask.main cfg)).
Proof.
  intros n k chunk_luts base_pat inv_pat. split; [| apply cell_mask_main_raises].
  intros base_init inv_init Hb Hi.
  destruct (generate_init_values_cases n k base_pat) as [(bf & Hbf & Hk & Hbl)|[msg Hr]];
    [| congruence].
  destruct (generate_init_values_cases n k inv_pat) as [(vf & Hvf & _ & Hvl)|[msg Hr]];
    [| congruence].
  exists bf, vf.
  split; [congruence |]. split; [congruence |]. split; [exact Hbl |]. split; [exact Hvl |].
  now apply cell_mask_main_ok.
Qed.

Lemma cell_mask_main_outcome_witness :
  exists base_flat inv_flat,
    "8'b00010001" = str_of_int (Z.max 0 2 * 2 ^ 2) +:+ "'b" +:+ base_flat /\
    "8'b11101110" = str_of_int (Z.max 0 2 * 2 ^ 2) +:+ "'b" +:+ inv_flat /\
    len_str base_flat = Z.max 0 2 * 2 ^ 2 /\
    len_str inv_flat = Z.max 0 2 * 2 ^ 2 /\
    CellMask.main cfg_example =
    Ok {| dynamic_params_list :=
            [[build_param_set 0 (2 ^ 2 * 256) ["INIT"] 2 2 256 "8'b00010001";
              build_param_set 1 (2 ^ 2 * 256) ["INIT"] 2 2 256 "8'b11101110"]];
          cleanup := false;
          num_processes := 2;
          design_name := None |}.
Proof.
  apply (proj1 (cell_mask_main_outcome cfg_example) "8'b00010001" "8'b11101110");
    reflexivity.
Defined.

(** X14: the default patterns of the cell-mask driver are 16 bits
    wide. With a configuration that sets neither pattern the driver
    launches its experiment exactly when [K] is 4, the default among
    them; any other [K] ends in a [ValueError]. *)
Theorem cell_mask_main_default_patterns (cfg : config) :
  cfg_base_value cfg = None ->
  cfg_inverted_value cfg = None ->
  ((exists exp, CellMask.main cfg = Ok exp) <-> default 4 (cfg_K cfg) = 4) /\
  (default 4 (cfg_K cfg) <> 4 -> raises_ValueError (CellMask.main cfg)).
Proof.
  intros Hbase Hinv.
  set (n := default 64 (cfg_N cfg)). set (k := default 4 (cfg_K cfg)).
  assert (Hgen : forall body,
            len_str (without "_" body) = 16 ->
            (exists lit, CellMask._generate_init_values n k ("16'" +:+ String "b" body) = Ok lit)
            <-> k = 4).
  { intros body Hlen. rewrite (generate_init_values_app "16'" body n k eq_refl).
    destruct (lshift_cases 1 k) as [[Hk ->]|[Hk ->]]; simpl.
    - rewrite Z.shiftl_1_l, Hlen. case_bool_decide as H16; split.
      + intros [lit Hl]. discriminate Hl.
      + intros ->. now destruct H16.
      + intros _. apply pow2_eq_16; [assumption | lia].
      + intros _. eexists. reflexivity.
    - split; [intros [lit Hl]; discriminate Hl | lia]. }
  pose proof (cell_mask_main_ok cfg) as Hok.
  pose proof (cell_mask_main_raises cfg) as Hfail.
  rewrite Hbase, Hinv in Hok, Hfail. simpl default in Hok, Hfail. fold n k in Hok, Hfail.
  assert (Hiff : (exists exp, CellMask.main cfg = Ok exp) <-> k = 4).
  { split.
    - intros [exp Hexp].
      destruct (Z.eq_dec k 4) as [|Hne]; [assumption |]. exfalso.
      destruct Hfail as [msg Hmsg]; [| congruence].
      left. destruct (generate_init_values_cases n k "16'b0001_0110_0110_1000")
        as [(flat & Hflat & _)|[msg Hmsg]]; [| now exists (ValueError msg)].
      destruct Hne. apply (Hgen "0001_0110_0110_1000" eq_refl). eexists. exact Hflat.
    - intros H4.
      destruct (proj2 (Hgen "0001_0110_0110_1000" eq_refl) H4) as [bi Hbi].
      destruct (proj2 (Hgen "1110_1001_1001_0111" eq_refl) H4) as [ii Hii].
      eexists. exact (Hok bi ii Hbi Hii). }
  split; [exact Hiff |].
  intros Hne. apply Hfail. left.
  destruct (generate_init_values_cases n k "16'b0001_0110_0110_1000")
    as [(flat & Hflat & _)|[msg Hmsg]]; [| now exists (ValueError msg)].
  destruct Hne. apply (Hgen "0001_0110_0110_1000" eq_refl). eexists. exact Hflat.
Qed.

Lemma cell_mask_main_default_patterns_witness :
  (exists exp, CellMask.main cfg_default = Ok exp) /\
  raises_ValueError
    (CellMask.main {| cfg_N := None; cfg_K := Some 5; cfg_CHUNK_LUTS := None;
                      cfg_base_value := None; cfg_inverted_value := None;
                      cfg_num_values := None; cfg_static_init_values := [] |}).
Proof.
  split.
  - apply (cell_mask_main_default_patterns cfg_default eq_refl eq_refl). reflexivity.
  - apply (cell_mask_main_default_patterns
             {| cfg_N := None; cfg_K := Some 5; cfg_CHUNK_LUTS := None;
                cfg_base_value := None; cfg_inverted_value := None;
                cfg_num_values := None; cfg_static_init_values := [] |} eq_refl eq_refl).
    simpl. lia.
Defined.

Section RandAllDriver.

Variables (n k chunk_luts chunk_bits : Z) (statics static_bits : list string).

Hypothesis Hk : 0 <= k.
Hypothesis Hlen : len statics <= n.
Hypothesis Hstatic :
  Forall2 (fun pat bits => RandAll._plain_bits pat k = Ok bits) statics static_bits.

Lemma build_flat_init_literal_fits (w : world) :
  RandAll._build_flat_init_literal n k statics w =
  (Ok (flat_literal (static_bits ++ random_chain (coin w) (draws w) (Z.to_nat (2 ^ k))
                                     (Z.to_nat (n - len statics)))),
   advance (Z.to_nat (n - len statics) * Z.to_nat (2 ^ k)) w).
Proof. apply build_of_chain. now apply chain_bits_fits. Qed.

(** The loop of the driver: iteration [j] cuts its random patterns
    from the draws that follow those of the iterations before it. *)
Lemma build_groups_run (idxs : list Z) (groups : list (list param_set)) (w : world) :
  RandAll.build_groups n k chunk_luts chunk_bits statics idxs groups w =
  (Ok (groups ++
       imap (fun j idx =>
               [build_param_set idx chunk_bits ["INIT"] n k chunk_luts
                  (flat_literal
                     (static_bits ++
                      random_chain (coin w)
                        (draws w + j * (Z.to_nat (n - len statics) * Z.to_nat (2 ^ k)))
                        (Z.to_nat (2 ^ k)) (Z.to_nat (n - len statics))))]) idxs)%list,
   advance (length idxs * (Z.to_nat (n - len statics) * Z.to_nat (2 ^ k))) w).
Proof.
  revert groups w. induction idxs as [|idx idxs IH]; intros groups w.
  - simpl. unfold mret, action_ret. now rewrite app_nil_r, advance_0.
  - cbn [RandAll.build_groups].
    rewrite (bind_run_ok _ _ _ _ _ (build_flat_init_literal_fits w)).
    rewrite IH, imap_cons, <- app_assoc, advance_advance. f_equal.
    do 2 f_equal. cbn [app]. f_equal.
    + now rewrite Nat.mul_0_l, Nat.add_0_r.
    + apply imap_ext. intros j x _. unfold compose, advance. cbn [coin draws].
      do 5 f_equal. lia.
Qed.

End RandAllDriver.

(** The run of the rand-all driver on a design that can be built. *)
Lemma rand_all_main_run (cfg : config) (static_bits : list string) (w : world) :
  0 <= default 4 (cfg_K cfg) ->
  len (cfg_static_init_values cfg) <= default 1152 (cfg_N cfg) ->
  Forall2 (fun pat bits => RandAll._plain_bits pat (default 4 (cfg_K cfg)) = Ok bits)
    (cfg_static_init_values cfg) static_bits ->
  RandAll.main cfg w =
  (Ok {| dynamic_params_list :=
           imap (fun j idx =>
                   [build_param_set idx
                      (2 ^ default 4 (cfg_K cfg) * default 256 (cfg_CHUNK_LUTS cfg)) ["INIT"]
                      (default 1152 (cfg_N cfg)) (default 4 (cfg_K cfg))
                      (default 256 (cfg_CHUNK_LUTS cfg))
                      (flat_literal
                         (static_bits ++
                          random_chain (coin w)
                            (draws w +
                             j * (Z.to_nat (default 1152 (cfg_N cfg)
                                            - len (cfg_static_init_values cfg))
                                  * Z.to_nat (2 ^ default 4 (cfg_K cfg))))
                            (Z.to_nat (2 ^ default 4 (cfg_K cfg)))
                            (Z.to_nat (default 1152 (cfg_N cfg)
                                       - len (cfg_static_init_values cfg)))))])
             (seqZ 0 (default 1 (cfg_num_values cfg)));
         cleanup := false;
         num_processes := Z.max 1 (default 1 (cfg_num_values cfg));
         design_name := Some "base" |},
   advance (Z.to_nat (default 1 (cfg_num_values cfg))
            * (Z.to_nat (default 1152 (cfg_N cfg) - len (cfg_static_init_values cfg))
               * Z.to_nat (2 ^ default 4 (cfg_K cfg)))) w).
Proof.
  intros Hk Hlen HF. unfold RandAll.main.
  rewrite (lshift_nonneg _ Hk), bind_lift_ok.
  rewrite (bind_run_ok _ _ _ _ _
             (build_groups_run _ _ (default 256 (cfg_CHUNK_LUTS cfg))
                (2 ^ default 4 (cfg_K cfg) * default 256 (cfg_CHUNK_LUTS cfg))
                _ static_bits Hk Hlen HF (seqZ 0 (default 1 (cfg_num_values cfg))) [] w)).
  unfold mret, action_ret. rewrite length_seqZ. reflexivity.
Qed.

(** X15: the groups of the rand-all driver. With static patterns that
    encode and fit the chain, the driver launches as many groups as
    there are iterations, with that many worker processes and 1 at
    least; group [j] holds one parameter set, of index [j], whose
    [INIT] is the flat literal of the static bits and of random
    patterns cut from a stretch of draws of its own, the stretches of
    two groups never overlapping. *)
Theorem rand_all_main_groups (cfg : config) (static_bits : list string) (w : world) :
  let n := default 1152 (cfg_N cfg) in
  let k := default 4 (cfg_K cfg) in
  let chunk_luts := default 256 (cfg_CHUNK_LUTS cfg) in
  let iterations := default 1 (cfg_num_values cfg) in
  let statics := cfg_static_init_values cfg in
  let slots := Z.to_nat (n - len statics) in
  let width := Z.to_nat (2 ^ k) in
  0 <= k ->
  len statics <= n ->
  Forall2 (fun pat bits => RandAll._plain_bits pat k = Ok bits) statics static_bits ->
  exists exp,
    RandAll.main cfg w = (Ok exp, advance (Z.to_nat iterations * (slots * width)) w) /\
    len (dynamic_params_list exp) = Z.max 0 iterations /\
    num_processes exp = Z.max 1 iterations /\
    cleanup exp = false /\
    design_name exp = Some "base" /\
    forall j : nat, Z.of_nat j < iterations ->
      dynamic_params_list exp !! j =
      Some [build_param_set (Z.of_nat j) (2 ^ k * chunk_luts) ["INIT"] n k chunk_luts
              (flat_literal
                 (static_bits ++ random_chain (coin w) (draws w + j * (slots * width))
                                   width slots))].
Proof.
  intros n k chunk_luts iterations statics slots width Hk Hlen HF.
  eexists. split; [apply (rand_all_main_run cfg static_bits w Hk Hlen HF) |].
  split; [| split; [| split; [| split]]]; try reflexivity.
  - cbn [dynamic_params_list]. unfold len. rewrite length_imap, length_seqZ.
    fold iterations. lia.
  - intros j Hj. cbn [dynamic_params_list].
    rewrite list_lookup_imap. fold iterations. rewrite lookup_seqZ_lt by exact Hj.
    reflexivity.
Qed.

Lemma rand_all_main_groups_witness :
  exists exp,
    RandAll.main cfg_example world0 = (Ok exp, advance 12 world0) /\
    len (dynamic_params_list exp) = 3 /\
    dynamic_params_list exp !! 2%nat =
      Some [build_param_set 2 1024 ["INIT"] 2 2 256 "8'b10100001"].
Proof.
  destruct (rand_all_main_groups cfg_example ["0001"] world0
              ltac:(simpl; lia) ltac:(unfold len; simpl; lia) ltac:(repeat constructor))
    as (exp & Hmain & Hlen & _ & _ & _ & Hgroup).
  exists exp. split; [exact Hmain |]. split; [exact Hlen |].
  apply (Hgroup 2%nat). simpl. lia.
Defined.

(** X16: what the rand-all driver checks, and when. With no iteration
    to run the static patterns are never looked at: the driver launches
    an empty experiment with 1 worker process whatever they are, as
    long as [K] is not negative. With one iteration at least, a design
    that cannot be built makes the driver raise a [ValueError] before
    any draw, and a negative [K] does so whatever the iterations
    are. *)
Theorem rand_all_main_checks (cfg : config) (w : world) :
  let n := default 1152 (cfg_N cfg) in
  let k := default 4 (cfg_K cfg) in
  let iterations := default 1 (cfg_num_values cfg) in
  let statics := cfg_static_init_values cfg in
  (0 <= k -> iterations <= 0 ->
   RandAll.main cfg w =
   (Ok {| dynamic_params_list := []; cleanup := false; num_processes := 1;
          design_name := Some "base" |}, w)) /\
  (1 <= iterations ->
   ~ (0 <= k /\ len statics <= n /\ Forall (encodes k) statics) ->
   exists msg, RandAll.main cfg w = (Raise (ValueError msg), w)) /\
  (k < 0 -> exists msg, RandAll.main cfg w = (Raise (ValueError msg), w)).
Proof.
  intros n k iterations statics. split; [| split].
  - intros Hk Hit. unfold RandAll.main. fold n k iterations statics.
    rewrite (lshift_nonneg _ Hk), bind_lift_ok.
    replace (seqZ 0 iterations) with (@nil Z)
      by (symmetry; apply length_zero_iff_nil; rewrite length_seqZ; lia).
    replace (Z.max 1 iterations) with 1 by lia. reflexivity.
  - intros Hit Hbad. unfold RandAll.main. fold n k iterations statics.
    destruct (lshift_cases 1 k) as [[Hk ->]|[Hk ->]];
      [| rewrite bind_lift_raise; eexists; reflexivity].
    rewrite bind_lift_ok.
    destruct (seqZ 0 iterations) as [|idx idxs] eqn:Hseq.
    { apply (f_equal length) in Hseq. rewrite length_seqZ in Hseq. simpl in Hseq. lia. }
    destruct (build_flat_init_literal_rejects n k statics w Hbad) as [msg Hmsg].
    exists msg. cbn [RandAll.build_groups].
    rewrite (bind_run_raise _ _ _ _ _ (bind_run_raise _ _ _ _ _ Hmsg)). reflexivity.
  - intros Hk. unfold RandAll.main. fold n k iterations statics.
    rewrite (lshift_neg _ _ Hk), bind_lift_raise. eexists. reflexivity.
Qed.

Lemma rand_all_main_checks_witness :
  RandAll.main
    {| cfg_N := Some 2; cfg_K := Some 2; cfg_CHUNK_LUTS := None;
       cfg_base_value := None; cfg_inverted_value := None;
       cfg_num_values := Some 0; cfg_static_init_values := ["not a pattern"] |} world0 =
  (Ok {| dynamic_params_list := []; cleanup := false; num_processes := 1;
         design_name := Some "base" |}, world0).
Proof.
  apply (rand_all_main_checks
           {| cfg_N := Some 2; cfg_K := Some 2; cfg_CHUNK_LUTS := None;
              cfg_base_value := None; cfg_inverted_value := None;
              cfg_num_values := Some 0; cfg_static_init_values := ["not a pattern"] |}
           world0); simpl; lia.
Defined.

(** X17: a chain that the static patterns fill. The driver draws
    nothing, and the parameter sets of all its groups carry the same
    template parameters; the analysis callback, which looks its row up
    by these parameters, therefore takes the same row of the results
    for every group. *)
Theorem rand_all_main_full_static (cfg : config) (static_bits : list string) (w : world) :
  0 <= default 4 (cfg_K cfg) ->
  len (cfg_static_init_values cfg) = default 1152 (cfg_N cfg) ->
  Forall2 (fun pat bits => RandAll._plain_bits pat (default 4 (cfg_K cfg)) = Ok bits)
    (cfg_static_init_values cfg) static_bits ->
  exists exp,
    RandAll.main cfg w = (Ok exp, w) /\
    forall (i j : nat) (p q : param_set),
      dynamic_params_list exp !! i = Some [p] ->
      dynamic_params_list exp !! j = Some [q] ->
      ps_verilog_parameters p = ps_verilog_parameters q /\
      vp_INIT (ps_verilog_parameters p) = flat_literal static_bits /\
      forall fz, group_result fz p = group_result fz q.
Proof.
  intros Hk Hlen HF.
  pose proof (rand_all_main_run cfg static_bits w Hk ltac:(lia) HF) as Hrun.
  rewrite Hlen, Z.sub_diag in Hrun. cbn [Z.to_nat Nat.mul random_chain] in Hrun.
  rewrite Nat.mul_0_r, advance_0 in Hrun.
  eexists. split; [exact Hrun |].
  intros i j p q Hi Hj. cbn [dynamic_params_list] in Hi, Hj.
  rewrite list_lookup_imap in Hi, Hj.
  destruct (seqZ 0 (default 1 (cfg_num_values cfg)) !! i) as [a|]; [| discriminate].
  destruct (seqZ 0 (default 1 (cfg_num_values cfg)) !! j) as [b|]; [| discriminate].
  simpl in Hi, Hj. injection Hi as <-. injection Hj as <-.
  rewrite app_nil_r. cbn [ps_verilog_parameters build_param_set vp_INIT].
  split; [reflexivity |]. split; [reflexivity |]. intros fz. reflexivity.
Qed.

Lemma rand_all_main_full_static_witness :
  exists exp,
    RandAll.main
      {| cfg_N := Some 1; cfg_K := Some 2; cfg_CHUNK_LUTS := None;
         cfg_base_value := None; cfg_inverted_value := None;
         cfg_num_values := Some 2; cfg_static_init_values := ["4'b0001"] |} world0 =
    (Ok exp, world0).
Proof.
  destruct (rand_all_main_full_static
              {| cfg_N := Some 1; cfg_K := Some 2; cfg_CHUNK_LUTS := None;
                 cfg_base_value := None; cfg_inverted_value := None;
                 cfg_num_values := Some 2; cfg_static_init_values := ["4'b0001"] |}
              ["0001"] world0 ltac:(simpl; lia) eq_refl ltac:(repeat constructor))
    as (exp & Hmain & _).
  exists exp. exact Hmain.
Defined.
